(** * js-part-0: value classification and list analyzers

    A shallow embedding of the TypeScript program (the file whose functions
    are implemented; [index.js] is the assignment template, in which only
    [areEqual], [getType], [getTypesOfItems] and [allItemsHaveTheSameType]
    have bodies) together with the properties its specification states.

    Modelling conventions.
    - A JavaScript value is a finite tree ([value]).  Objects carry the
      address that [===] compares, the chain of prototypes that
      [instanceof] walks, and what kind of object they are (ordinary,
      array, callable).
    - Numbers are IEEE 754 binary64 values in the Standard Library's
      [spec_float] representation, compared with [SFeqb].
    - An array is the list of its positions below [length], each of which
      holds an element or is a hole ([None]): reading a hole gives
      [undefined], [for...of] and [new Set] read it so, while [every] and
      [map] skip it.  Proxies and accessor properties are outside the
      model.
    - The nesting of a [value] is finite.  An array that holds itself
      ([a = []; a.push(a)]) is no [value]: the one function that descends
      into its argument, [areEqual], is given a second time over arrays
      that live on a heap (module [Graph]), with the depth of its recursion
      bounded, and the two are related.
    - Type tags are strings, as in the source. *)

From Stdlib Require Import ZArith SpecFloat Ascii.
From stdpp Require Import gmap strings list sorting.

(** ** Values *)

(** Prototype objects that can occur on a prototype chain.  The first seven
    are the [prototype] properties of the constructors [getRealType] tests
    with [instanceof]. *)
Inductive proto : Type :=
  | DateP | RegExpP | SetP | MapP | ErrorP | ArrayBufferP | BlobP
  | ObjectP | ArrayP | FunctionP | StringP
  | OtherP (id : nat).

#[global] Instance proto_eq_dec : EqDecision proto.
Proof. solve_decision. Defined.

#[local] Set Warnings "-register-all".
Inductive value : Type :=
  | Undefined
  | Null
  | Boolean (b : bool)
  | Number (x : spec_float)
  | BigInt (n : Z)
  | Str (s : string)
  | Symbol (id : nat)
  | Obj (addr : nat) (chain : list proto)
  | Arr (addr : nat) (chain : list proto) (elems : list (option value))
  | Fun (addr : nat) (chain : list proto) (name : string).
#[local] Set Warnings "register-all".

(** Number literals. *)
Definition NaN : spec_float := S754_nan.
Definition Infinity : spec_float := S754_infinity false.
Definition NegInfinity : spec_float := S754_infinity true.
Definition num (z : Z) : spec_float := binary_normalize 53 1024 z 0 false.

(** [typeof value] *)
Definition typeof (v : value) : string :=
  match v with
  | Undefined => "undefined"
  | Null => "object"
  | Boolean _ => "boolean"
  | Number _ => "number"
  | BigInt _ => "bigint"
  | Str _ => "string"
  | Symbol _ => "symbol"
  | Obj _ _ => "object"
  | Arr _ _ _ => "object"
  | Fun _ _ _ => "function"
  end.

(** [Array.isArray(value)] *)
Definition isArray (v : value) : bool :=
  match v with
  | Arr _ _ _ => true
  | _ => false
  end.

(** [value instanceof C], where [p] is [C.prototype]: false on primitives,
    otherwise a walk along the prototype chain. *)
Definition instanceOf (v : value) (p : proto) : bool :=
  match v with
  | Obj _ chain | Arr _ chain _ | Fun _ chain _ => bool_decide (p ∈ chain)
  | _ => false
  end.

(** [Number.isNaN(value)]: no coercion, true on the number NaN only. *)
Definition Number_isNaN (v : value) : bool :=
  match v with
  | Number S754_nan => true
  | _ => false
  end.

(** [a === b]: operands of different types differ; numbers compare as
    IEEE 754 values (NaN differs from itself, the two zeros are equal);
    objects compare by identity. *)
Definition strictEq (a b : value) : bool :=
  match a, b with
  | Undefined, Undefined => true
  | Null, Null => true
  | Boolean x, Boolean y => bool_decide (x = y)
  | Number x, Number y => SFeqb x y
  | BigInt x, BigInt y => bool_decide (x = y)
  | Str x, Str y => bool_decide (x = y)
  | Symbol x, Symbol y => bool_decide (x = y)
  | Obj x _, Obj y _ => bool_decide (x = y)
  | Arr x _ _, Arr y _ _ => bool_decide (x = y)
  | Fun x _ _, Fun y _ _ => bool_decide (x = y)
  | _, _ => false
  end.

(** [value.name], read by the program on callables only. *)
Definition nameOf (v : value) : value :=
  match v with
  | Fun _ _ name => Str name
  | _ => Undefined
  end.

(** *** Arrays

    What a read of a position gives, [arr[index]], the values a
    [for...of] loop (and the iteration of [new Set]) runs over, and the
    array literal with the given elements and no hole. *)
Definition readSlot (slot : option value) : value := default Undefined slot.

Definition readAt (elems : list (option value)) (index : nat) : value :=
  match elems !! index with
  | Some slot => readSlot slot
  | None => Undefined
  end.

Definition iterated (arr : list (option value)) : list value :=
  readSlot <$> arr.

Definition literal (elems : list value) : list (option value) :=
  Some <$> elems.

Definition arrayOf (addr : nat) (elems : list value) : value :=
  Arr addr [ArrayP; ObjectP] (literal elems).

(** ** Functions *)

Definition getType (v : value) : string := typeof v.

(** [arr.map(getType)]: [map] calls [getType] on the elements and leaves
    the holes where they are. *)
Definition getTypesOfItems (arr : list (option value)) : list (option string) :=
  (λ slot : option value, getType <$> slot) <$> arr.

Definition getRealType (v : value) : string :=
  if isArray v then "array"
  else if instanceOf v DateP then "date"
  else if instanceOf v RegExpP then "regexp"
  else if instanceOf v SetP then "set"
  else if instanceOf v MapP then "map"
  else if instanceOf v ErrorP then "error"
  else if instanceOf v ArrayBufferP then "buffer"
  else if instanceOf v BlobP then "blob"
  else if Number_isNaN v then "NaN"
  else if strictEq v Null then "null"
  else if strictEq v (Number Infinity) then "Infinity"
  else if bool_decide (typeof v = "function")
          && strictEq (nameOf v) (Str "GeneratorFunction")
       then "generator function"
  else typeof v.

(** [for (const el of arr) realTypesArr.push(getRealType(el))]: the result
    has no hole. *)
Definition getRealTypesOfItems (arr : list (option value)) : list string :=
  fold_left (λ realTypesArr el, realTypesArr ++ [getRealType el]) (iterated arr) [].

(** [new Set(array)] on an array of strings, with [.size] as [size].  The
    members are the values read from the array: a string, or [undefined]
    ([None]) where the array has a hole. *)
Definition newSet (l : list (option string)) : gset (option string) :=
  list_to_set l.

(** An array of strings without holes, as the argument of [new Set]. *)
Definition strings (l : list string) : list (option string) := Some <$> l.

Definition allItemsHaveTheSameType (arr : list (option value)) : bool :=
  if bool_decide (0 < length arr) then
    let typesSet := newSet (getTypesOfItems arr) in
    bool_decide (size typesSet = 1)
  else true.

Definition everyItemHasAUniqueRealType (arr : list (option value)) : bool :=
  if bool_decide (0 < length arr) then
    let realTypesSet := newSet (strings (getRealTypesOfItems arr)) in
    bool_decide (size realTypesSet = length arr)
  else true.

(** *** Objects used as string-keyed maps

    [StringMap<T>]: the own properties of an object literal, in the order in
    which they were created. *)
Definition StringMap (T : Type) : Type := list (string * T).

(** [o[key]]: [None] is [undefined]. *)
Fixpoint propGet {T} (o : StringMap T) (key : string) : option T :=
  match o with
  | [] => None
  | (k, x) :: rest => if decide (k = key) then Some x else propGet rest key
  end.

(** [o[key] = x]: an existing property keeps its place, a new one goes last. *)
Fixpoint propSet {T} (o : StringMap T) (key : string) (x : T) : StringMap T :=
  match o with
  | [] => [(key, x)]
  | (k, y) :: rest =>
      if decide (k = key) then (k, x) :: rest else (k, y) :: propSet rest key x
  end.

(** Property keys that are array indices: canonical decimal numerals below
    [2^32 - 1].  [Object.entries] lists these first, in ascending numeric
    order, and the other string keys after them in creation order. *)
Fixpoint decimal (acc : N) (s : string) : option N :=
  match s with
  | EmptyString => Some acc
  | String c rest =>
      match Ascii.is_nat c with
      | Some d => decimal (acc * 10 + N.of_nat d) rest
      | None => None
      end
  end.

Definition arrayIndex (key : string) : option N :=
  match key with
  | EmptyString => None
  | String c rest =>
      if bool_decide (c = "0"%char) && negb (bool_decide (rest = EmptyString))
      then None
      else match decimal 0 key with
           | Some n => if bool_decide (n < 2 ^ 32 - 1)%N then Some n else None
           | None => None
           end
  end.

Definition indexOrder {T} (p q : string * T) : Prop :=
  (default 0 (arrayIndex p.1) ≤ default 0 (arrayIndex q.1))%N.

#[global] Instance indexOrder_dec {T} : RelDecision (@indexOrder T).
Proof. intros p q. unfold indexOrder. apply _. Defined.

Definition Object_entries {T} (o : StringMap T) : list (string * T) :=
  merge_sort indexOrder (filter (λ p, is_Some (arrayIndex p.1)) o)
  ++ filter (λ p, arrayIndex p.1 = None) o.

(** *** countRealTypes *)

(** [Array.prototype.sort()] without a comparator, on strings: ascending by
    code units. *)
Definition sort (l : list string) : list string := merge_sort String.le l.

(** The argument of [countRealTypes]: declared [unknown[]], tested with
    [!arr], which holds of [null] and [undefined] and of no array. *)
Inductive arrayArg : Type :=
  | ArgNull
  | ArgUndefined
  | ArgArray (items : list (option value)).

Definition falsy (arr : arrayArg) : bool :=
  match arr with
  | ArgNull | ArgUndefined => true
  | ArgArray _ => false
  end.

Definition itemsOf (arr : arrayArg) : list (option value) :=
  match arr with
  | ArgArray items => items
  | _ => []
  end.

(** One turn of the counting loop. *)
Definition countStep (realTypesCounter : StringMap nat) (realType : string)
  : StringMap nat :=
  let count := propGet realTypesCounter realType in
  propSet realTypesCounter realType
    (match count with Some c => c + 1 | None => 1 end).

Definition countRealTypes (arr : arrayArg) : list (string * nat) :=
  if falsy arr then []
  else
    let realTypesArr := sort (getRealTypesOfItems (itemsOf arr)) in
    let realTypesCounter := fold_left countStep realTypesArr [] in
    Object_entries realTypesCounter.

(** ** Test utils *)

Section Every.
Context {A : Type} (callbackfn : A → nat → bool).

(** [a.every(callbackfn)], from position [index] on: the callback is
    called on the elements that exist, not on holes. *)
Fixpoint everyFrom (index : nat) (a : list (option A)) : bool :=
  match a with
  | [] => true
  | None :: rest => everyFrom (S index) rest
  | Some element :: rest => callbackfn element index && everyFrom (S index) rest
  end.
End Every.

Definition every {A} (a : list (option A)) (callbackfn : A → nat → bool) : bool :=
  everyFrom callbackfn 0 a.

Definition elemsOf (v : value) : list (option value) :=
  match v with
  | Arr _ _ elems => elems
  | _ => []
  end.

Fixpoint areEqual (a b : value) {struct a} : bool :=
  match a, b with
  | Arr _ _ ea, Arr _ _ eb =>
      bool_decide (length ea = length eb)
      && every ea (λ element index, areEqual element (readAt eb index))
  | _, _ => strictEq a b
  end.

(** The template's versions, where they differ from the TypeScript ones. *)
Module IndexJs.

Definition areEqual (a b : value) : bool :=
  if isArray a && isArray b then
    bool_decide (length (elemsOf a) = length (elemsOf b))
    && every (elemsOf a) (λ element index, strictEq element (readAt (elemsOf b) index))
  else strictEq a b.

Definition getTypesOfItems (arr : list (option value)) : list string :=
  fold_left (λ typesArr el, typesArr ++ [getType el]) (iterated arr) [].

End IndexJs.

(** The sample of the repository's test script. *)
Definition knownTypes : list (option value) :=
  literal
  [ Boolean true;
    Number (num 123);
    Str "123";
    arrayOf 0 [];
    Obj 1 [ObjectP];
    Fun 2 [FunctionP; ObjectP] "";
    Undefined;
    Null;
    Number NaN;
    Number Infinity;
    Obj 3 [DateP; ObjectP];
    Obj 4 [RegExpP; ObjectP];
    Obj 5 [SetP; ObjectP];
    BigInt 123;
    Obj 6 [ErrorP; ObjectP];
    Symbol 0;
    Obj 7 [MapP; ObjectP];
    Obj 8 [ArrayBufferP; ObjectP];
    Obj 9 [BlobP; ObjectP];
    Fun 10 [OtherP 0; FunctionP; ObjectP] "GeneratorFunction" ].

(** ** The specification's reading of the two refinements

    Section 4.1: the ordered discriminations, each check with the tag it
    yields; the sentinels are recognised on the data. *)
Definition isNullSentinel (v : value) : bool :=
  match v with Null => true | _ => false end.

Definition isPositiveInfinity (v : value) : bool :=
  match v with Number (S754_infinity false) => true | _ => false end.

Definition isGeneratorConstructor (v : value) : bool :=
  match v with
  | Fun _ _ name => bool_decide (name = "GeneratorFunction")
  | _ => false
  end.

Definition discriminations : list ((value → bool) * string) :=
  [ (isArray, "array");
    (λ v, instanceOf v DateP, "date");
    (λ v, instanceOf v RegExpP, "regexp");
    (λ v, instanceOf v SetP, "set");
    (λ v, instanceOf v MapP, "map");
    (λ v, instanceOf v ErrorP, "error");
    (λ v, instanceOf v ArrayBufferP, "buffer");
    (λ v, instanceOf v BlobP, "blob");
    (Number_isNaN, "NaN");
    (isNullSentinel, "null");
    (isPositiveInfinity, "Infinity");
    (isGeneratorConstructor, "generator function") ].

(** The tags [getRealType] can return. *)
Definition realTypeTags : list string :=
  [ "array"; "date"; "regexp"; "set"; "map"; "error"; "buffer"; "blob";
    "NaN"; "null"; "Infinity"; "generator function";
    "undefined"; "object"; "boolean"; "number"; "bigint"; "string";
    "symbol"; "function" ].

(** Top to bottom, first match wins, coarse tag otherwise. *)
Fixpoint firstMatch (ds : list ((value → bool) * string)) (v : value) : string :=
  match ds with
  | [] => getType v
  | (check, tag) :: rest => if check v then tag else firstMatch rest v
  end.

Definition realType_spec (v : value) : string := firstMatch discriminations v.

(** Ascending order of tag labels without repetition; [String.le] is the
    lexicographic order on the characters' codes. *)
Definition tagBefore (s t : string) : Prop := String.le s t ∧ s ≠ t.

(** Section 4.3: list-like operands are equal when they have the same length
    and, position by position, what the positions hold is equal,
    recursively; any other pair is compared strictly. *)
#[local] Set Warnings "-register-all".
#[local] Set Warnings "register-all".

(** ** The program over a store

    [countRealTypes] again, with the arrays and the counter object it
    works on held in a store and named by location, so that writes and
    aliasing are explicit.  A run that reads a location of the wrong shape
    has no result. *)
Module Store.

Definition loc : Type := nat.

Inductive cell : Type :=
  | Items (items : list (option value))
  | Tags (tags : list string)
  | Counter (props : StringMap nat)
  | Entries (entries : list (string * nat)).

Abbreviation store := (gmap loc cell).

Definition Run (A : Type) : Type := store → option (A * store).

#[global] Instance Run_ret : MRet Run := λ A a σ, Some (a, σ).

#[global] Instance Run_bind : MBind Run := λ A B f m σ,
  match m σ with
  | Some (a, σ') => f a σ'
  | None => None
  end.

Definition fail {A} : Run A := λ _, None.

Definition alloc (c : cell) : Run loc := λ σ,
  let l := fresh (dom σ) in Some (l, <[l := c]> σ).

Definition deref (l : loc) : Run cell := λ σ,
  match σ !! l with
  | Some c => Some (c, σ)
  | None => None
  end.

Definition assign (l : loc) (c : cell) : Run unit := λ σ,
  match σ !! l with
  | Some _ => Some (tt, <[l := c]> σ)
  | None => None
  end.

Definition readItems (l : loc) : Run (list (option value)) :=
  c ← deref l; match c with Items items => mret items | _ => fail end.

Definition readTags (l : loc) : Run (list string) :=
  c ← deref l; match c with Tags tags => mret tags | _ => fail end.

Definition readProps (l : loc) : Run (StringMap nat) :=
  c ← deref l; match c with Counter props => mret props | _ => fail end.

(** [for (const x of xs) body], over the elements read when the loop
    starts; no loop of the program writes to the array it runs over. *)
Fixpoint forOf {A} (xs : list A) (body : A → Run unit) : Run unit :=
  match xs with
  | [] => mret tt
  | x :: rest => body x ;; forOf rest body
  end.

Definition push (arr : loc) (tag : string) : Run unit :=
  tags ← readTags arr; assign arr (Tags (tags ++ [tag])).

Definition sortInPlace (arr : loc) : Run unit :=
  tags ← readTags arr; assign arr (Tags (sort tags)).

Definition getRealTypesOfItems (arr : loc) : Run loc :=
  realTypesArr ← alloc (Tags []);
  items ← readItems arr;
  forOf (iterated items) (λ el, push realTypesArr (getRealType el));;
  mret realTypesArr.

Definition countRealTypes (arr : option loc) : Run loc :=
  match arr with
  | None => alloc (Entries [])
  | Some arr =>
      realTypesArr ← getRealTypesOfItems arr;
      sortInPlace realTypesArr;;
      realTypesCounter ← alloc (Counter []);
      tags ← readTags realTypesArr;
      forOf tags (λ realType,
        props ← readProps realTypesCounter;
        let count := propGet props realType in
        assign realTypesCounter
          (Counter (propSet props realType
                      (match count with Some c => c + 1 | None => 1 end))));;
      props ← readProps realTypesCounter;
      alloc (Entries (Object_entries props))
  end.

End Store.

(** ** The rest of the two files

    The template's list analyzer, the test runner and the test script. *)

(** The template's [allItemsHaveTheSameType], over its own
    [getTypesOfItems]. *)
Module Template.

Definition allItemsHaveTheSameType (arr : list (option value)) : bool :=
  if bool_decide (0 < length arr) then
    let typesSet := newSet (strings (IndexJs.getTypesOfItems arr)) in
    bool_decide (size typesSet = 1)
  else true.

End Template.

(** A value that holds NaN, at any depth of nesting in arrays. *)
Fixpoint containsNaN (v : value) : bool :=
  match v with
  | Number S754_nan => true
  | Arr _ _ elems =>
      existsb (λ slot, match slot with Some x => containsNaN x | None => false end)
              elems
  | _ => false
  end.

(** A value without a hole, at any depth of nesting in arrays. *)
Fixpoint withoutHoles (v : value) : bool :=
  match v with
  | Arr _ _ elems =>
      forallb (λ slot, match slot with Some x => withoutHoles x | None => false end)
              elems
  | _ => true
  end.

(** An array without a hole among its own positions. *)
Definition noHole (elems : list (option value)) : bool :=
  forallb (λ slot : option value, bool_decide (is_Some slot)) elems.

(** How deep arrays are nested in a value. *)
Fixpoint depth (v : value) : nat :=
  match v with
  | Arr _ _ elems =>
      S (max_list_with (λ slot, match slot with Some x => depth x | None => 0 end)
                       elems)
  | _ => 0
  end.

(** ** Arrays on a heap

    In the program an array is an object on the heap, and an element of an
    array may be that very array, or one that holds it.  Here arrays are
    named by their address in a heap that gives the positions of each;
    any other value is as above.  The recursion of [areEqual] has no
    measure that decreases on such arrays, so the depth of nested calls is
    bounded by [fuel]: a run that needs more has no result, and a call that
    has no result whatever the bound is one that does not return (the
    engine ends it with a stack overflow). *)
Module Graph.

Inductive node : Type :=
  | Leaf (v : value)
  | Ref (addr : nat).

Definition heap : Type := gmap nat (list (option node)).

(** The positions of an array, [None] on what is not an array; an address
    at which the heap has no array names none. *)
Definition slotsOf (h : heap) (x : node) : option (list (option node)) :=
  match x with
  | Ref addr => h !! addr
  | Leaf (Arr _ _ elems) => Some ((λ slot : option value, Leaf <$> slot) <$> elems)
  | Leaf _ => None
  end.

Definition strictEq (a b : node) : bool :=
  match a, b with
  | Leaf x, Leaf y => strictEq x y
  | Ref p, Ref q => bool_decide (p = q)
  | _, _ => false
  end.

Definition readAt (slots : list (option node)) (index : nat) : node :=
  match slots !! index with
  | Some (Some x) => x
  | _ => Leaf Undefined
  end.

Section Every.
Context (callbackfn : node → nat → option bool).

(** [every] stops at the first element on which the callback is false; a
    callback that does not return leaves [every] without a result. *)
Fixpoint everyFrom (index : nat) (a : list (option node)) : option bool :=
  match a with
  | [] => Some true
  | None :: rest => everyFrom (S index) rest
  | Some element :: rest =>
      match callbackfn element index with
      | Some true => everyFrom (S index) rest
      | stopped => stopped
      end
  end.
End Every.

Fixpoint areEqual (fuel : nat) (h : heap) (a b : node) : option bool :=
  match fuel with
  | 0 => None
  | S fuel =>
      match slotsOf h a, slotsOf h b with
      | Some ea, Some eb =>
          if bool_decide (length ea = length eb) then
            everyFrom (λ element index, areEqual fuel h element (readAt eb index)) 0 ea
          else Some false
      | _, _ => Some (strictEq a b)
      end
  end.

(** The value of finite nesting that a node of the heap stands for, when
    there is one. *)
#[local] Set Warnings "-register-all".
Inductive reads (h : heap) : node → value → Prop :=
  | reads_leaf v : reads h (Leaf v) v
  | reads_ref addr chain slots elems :
      h !! addr = Some slots →
      Forall2 (option_Forall2 (reads h)) slots elems →
      reads h (Ref addr) (Arr addr chain elems).
#[local] Set Warnings "register-all".

(** [a = []; a.push(a)], and [[1, 2]] next to [[1, [2]]] built from
    references. *)
Definition selfHeap : heap := {[ 0 := [Some (Ref 0)] ]}.

Definition nestedHeap : heap :=
  {[ 0 := [Some (Leaf (Number (num 1))); Some (Ref 1)];
     1 := [Some (Leaf (Number (num 2)))];
     2 := [Some (Leaf (Number (num 1))); Some (Ref 3)];
     3 := [Some (Leaf (Number (num 2)))] ]}.

(** [a = [1]; a.push(a)] and [b = [2]; b.push(b)]. *)
Definition twoLoops : heap :=
  {[ 0 := [Some (Leaf (Number (num 1))); Some (Ref 0)];
     1 := [Some (Leaf (Number (num 2))); Some (Ref 1)] ]}.

End Graph.

(** *** The console

    What the runner uses of the console: [log], [error] and [debug] print
    their argument at the current indentation; [group] prints its label and
    opens a group, which indents what follows; [groupEnd] closes the
    innermost group, if there is one. *)
Inductive channel : Type := ViaLog | ViaError | ViaDebug | ViaGroup.

#[global] Instance channel_eq_dec : EqDecision channel.
Proof. solve_decision. Defined.

Record printedLine : Type := PrintedLine {
  indent : nat;
  via : channel;
  payload : value
}.

Record console : Type := Console {
  openGroups : nat;
  printed : list printedLine
}.

Definition emit (ch : channel) (v : value) (c : console) : console :=
  Console (openGroups c) (printed c ++ [PrintedLine (openGroups c) ch v]).

Definition console_group (label : string) (c : console) : console :=
  Console (S (openGroups c)) (printed (emit ViaGroup (Str label) c)).

Definition console_groupEnd (c : console) : console :=
  Console (pred (openGroups c)) (printed c).

Definition newline : string := String "010"%char EmptyString.

(** *** The runner *)

Definition testBlock (name : string) (c : console) : console :=
  console_group ("# " +:+ name +:+ newline) (console_groupEnd c).

Definition test (whatWeTest : string) (actualResult expectedResult : value)
    (c : console) : console :=
  if areEqual actualResult expectedResult then
    emit ViaLog (Str ("[OK] " +:+ whatWeTest +:+ newline)) c
  else
    let c := emit ViaError (Str ("[FAIL] " +:+ whatWeTest)) c in
    let c := emit ViaDebug (Str "Expected:") c in
    let c := emit ViaDebug expectedResult c in
    let c := emit ViaDebug (Str "Actual:") c in
    let c := emit ViaDebug actualResult c in
    emit ViaLog (Str "") c.

(** A script is a sequence of calls of the runner. *)
Inductive call : Type :=
  | TestBlock (name : string)
  | Test (whatWeTest : string) (actualResult expectedResult : value).

Definition runCall (k : call) (c : console) : console :=
  match k with
  | TestBlock name => testBlock name c
  | Test whatWeTest actualResult expectedResult =>
      test whatWeTest actualResult expectedResult c
  end.

Definition runScript (script : list call) (c : console) : console :=
  fold_left (λ c k, runCall k c) script c.

(** What a call and a script add to the lines of the console. *)
Definition linesOfCall (k : call) (c : console) : list printedLine :=
  drop (length (printed c)) (printed (runCall k c)).

Definition linesOfScript (script : list call) (c : console) : list printedLine :=
  drop (length (printed c)) (printed (runScript script c)).

Definition passes (k : call) : bool :=
  match k with
  | TestBlock _ => false
  | Test _ actualResult expectedResult => areEqual actualResult expectedResult
  end.

Definition fails (k : call) : bool :=
  match k with
  | TestBlock _ => false
  | Test _ actualResult expectedResult =>
      negb (areEqual actualResult expectedResult)
  end.

Definition isTestBlock (k : call) : bool :=
  match k with TestBlock _ => true | Test _ _ _ => false end.

(** The lines of a console that report a passed and a failed check: a
    [log] of a string that starts with [[OK]], an [error] of a string that
    starts with [[FAIL]]. *)
Fixpoint startsWith (p s : string) : bool :=
  match p, s with
  | EmptyString, _ => true
  | String a p', String b s' => Ascii.eqb a b && startsWith p' s'
  | String _ _, EmptyString => false
  end.

Definition isOkLine (l : printedLine) : bool :=
  match via l, payload l with
  | ViaLog, Str s => startsWith "[OK] " s
  | _, _ => false
  end.

Definition isFailLine (l : printedLine) : bool :=
  match via l, payload l with
  | ViaError, Str s => startsWith "[FAIL] " s
  | _, _ => false
  end.

(** *** The values of the scripts

    Results and literals as values: an array of strings, the result of a
    [map] to strings, and an array of [type, count] pairs.  Every array
    literal and every result is an object of its own. *)
Definition tagsValue (addr : nat) (tags : list string) : value :=
  arrayOf addr (Str <$> tags).

Definition sparseTagsValue (addr : nat) (tags : list (option string)) : value :=
  Arr addr [ArrayP; ObjectP] ((λ slot : option string, Str <$> slot) <$> tags).

Definition entriesValue (addr : nat) (entries : list (string * nat)) : value :=
  arrayOf addr
    (imap (λ i p, arrayOf (addr + S i) [Str p.1; Number (num (Z.of_nat p.2))])
          entries).

Definition n123 : list value := [Number (num 1); Number (num 2); Number (num 3)].

(** The script of the TypeScript file. *)
Definition script : list call :=
  [ TestBlock "getType";
    Test "Boolean" (Str (getType (Boolean true))) (Str "boolean");
    Test "Number" (Str (getType (Number (num 123)))) (Str "number");
    Test "String" (Str (getType (Str "whoo"))) (Str "string");
    Test "Array" (Str (getType (arrayOf 100 []))) (Str "object");
    Test "Object" (Str (getType (Obj 101 [ObjectP]))) (Str "object");
    Test "Function" (Str (getType (Fun 102 [FunctionP; ObjectP] ""))) (Str "function");
    Test "Undefined" (Str (getType Undefined)) (Str "undefined");
    Test "Null" (Str (getType Null)) (Str "object");
    TestBlock "allItemsHaveTheSameType";
    Test "All values are numbers"
      (Boolean (allItemsHaveTheSameType
                  (literal [Number (num 11); Number (num 12); Number (num 13)])))
      (Boolean true);
    Test "All values are strings"
      (Boolean (allItemsHaveTheSameType (literal [Str "11"; Str "12"; Str "13"])))
      (Boolean true);
    Test "All values are strings but wait"
      (Boolean (allItemsHaveTheSameType
                  (literal [Str "11"; Obj 103 [StringP; ObjectP]; Str "13"])))
      (Boolean false);
    Test "Values like a number"
      (Boolean (allItemsHaveTheSameType
                  (literal [Number (num 123); Number NaN; Number Infinity])))
      (Boolean true);
    Test "Values like an object"
      (Boolean (allItemsHaveTheSameType (literal [Obj 104 [ObjectP]])))
      (Boolean true);
    TestBlock "getTypesOfItems VS getRealTypesOfItems";
    Test "Check basic types"
      (sparseTagsValue 105 (getTypesOfItems knownTypes))
      (tagsValue 106
         [ "boolean"; "number"; "string"; "object"; "object"; "function";
           "undefined"; "object"; "number"; "number"; "object"; "object";
           "object"; "bigint"; "object"; "symbol"; "object"; "object";
           "object"; "function" ]);
    Test "Check real types"
      (tagsValue 107 (getRealTypesOfItems knownTypes))
      (tagsValue 108
         [ "boolean"; "number"; "string"; "array"; "object"; "function";
           "undefined"; "null"; "NaN"; "Infinity"; "date"; "regexp"; "set";
           "bigint"; "error"; "symbol"; "map"; "buffer"; "blob";
           "generator function" ]);
    TestBlock "everyItemHasAUniqueRealType";
    Test "All value types in the array are unique"
      (Boolean (everyItemHasAUniqueRealType
                  (literal [Boolean true; Number (num 123); Str "123"])))
      (Boolean true);
    Test "Two values have the same type"
      (Boolean (everyItemHasAUniqueRealType
                  (literal [Boolean true; Number (num 123);
                   Boolean (strictEq (Str "123") (Number (num 123)))])))
      (Boolean false);
    Test "There are no repeated types in knownTypes"
      (Boolean (everyItemHasAUniqueRealType knownTypes))
      (Boolean true);
    TestBlock "countRealTypes";
    Test "Count unique types of array items"
      (entriesValue 110
         (countRealTypes
            (ArgArray (literal [Boolean true; Null; Boolean (negb false);
                       Boolean (negb (negb false)); Obj 109 [ObjectP]]))))
      (entriesValue 120 [("boolean", 3); ("null", 1); ("object", 1)]);
    Test "Counted unique types are sorted"
      (entriesValue 130
         (countRealTypes
            (ArgArray (literal [Obj 129 [ObjectP]; Null; Boolean true;
                       Boolean (negb false); Boolean (negb (negb false))]))))
      (entriesValue 140 [("boolean", 3); ("null", 1); ("object", 1)]);
    TestBlock "string literal VS String()";
    Test "All values are strings"
      (Boolean (allItemsHaveTheSameType (literal [Str "123"; Str "123"])))
      (Boolean true);
    TestBlock "areEqual";
    Test "Arrays are not equal"
      (Boolean (areEqual (arrayOf 150 [Number (num 1); Null; Number (num 3)])
                         (arrayOf 151 [Number (num 1); Undefined; Number (num 3)])))
      (Boolean false);
    TestBlock "Arrays";
    Test "All values are arrays"
      (Boolean (allItemsHaveTheSameType
                  (literal [arrayOf 152 n123; arrayOf 153 n123; arrayOf 154 n123])))
      (Boolean true) ].

(** The tags [typeof] can yield, and the prototypes [getRealType] looks
    for. *)
Definition typeTags : list string :=
  [ "undefined"; "object"; "boolean"; "number"; "bigint"; "string";
    "symbol"; "function" ].

Definition classPrototypes : list proto :=
  [ DateP; RegExpP; SetP; MapP; ErrorP; ArrayBufferP; BlobP ].

(** * Properties *)

(** ** Classification *)

Lemma strictEq_Null v : strictEq v Null = isNullSentinel v.
Proof. by destruct v. Qed.

Lemma strictEq_Infinity v : strictEq v (Number Infinity) = isPositiveInfinity v.
Proof. destruct v as [| | |x| | | | | |]; try done. by destruct x as [[]|[]| |[]]. Qed.

Lemma generator_check v :
  bool_decide (typeof v = "function") && strictEq (nameOf v) (Str "GeneratorFunction")
  = isGeneratorConstructor v.
Proof. by destruct v. Qed.

(** The loop of [getRealTypesOfItems] is a map. *)
Lemma fold_push {A B} (f : A → B) (l : list A) (acc : list B) :
  fold_left (λ out x, out ++ [f x]) l acc = acc ++ (f <$> l).
Proof.
  revert acc. induction l as [|x l IH]; intros acc; simpl.
  - by rewrite app_nil_r.
  - by rewrite IH, <- app_assoc.
Qed.

Lemma getRealTypesOfItems_map arr :
  getRealTypesOfItems arr = getRealType <$> iterated arr.
Proof. unfold getRealTypesOfItems. by rewrite fold_push. Qed.

Lemma IndexJs_getTypesOfItems arr :
  IndexJs.getTypesOfItems arr = getType <$> iterated arr.
Proof. unfold IndexJs.getTypesOfItems. by rewrite fold_push. Qed.

Lemma length_iterated arr : length (iterated arr) = length arr.
Proof. apply length_fmap. Qed.

Lemma iterated_literal elems : iterated (literal elems) = elems.
Proof.
  unfold iterated, literal. rewrite <- list_fmap_compose. apply list_fmap_id.
Qed.

Lemma getRealType_tag v : getRealType v ∈ realTypeTags.
Proof.
  unfold getRealType.
  repeat (match goal with |- context [if ?c then _ else _] => destruct c end;
          [unfold realTypeTags; set_solver|]).
  destruct v; unfold realTypeTags; set_solver.
Qed.

Lemma firstMatch_at ds v : ∀ i check tag,
  ds !! i = Some (check, tag) →
  check v = true →
  (∀ j d, j < i → ds !! j = Some d → d.1 v = false) →
  firstMatch ds v = tag.
Proof.
  induction ds as [|[check0 tag0] ds IH]; intros i check tag Hi Hcheck Hbefore.
  - by rewrite lookup_nil in Hi.
  - destruct i as [|i]; simpl in *.
    + simplify_eq. by rewrite Hcheck.
    + pose proof (Hbefore 0 (check0, tag0) (Nat.lt_0_succ i) eq_refl) as H0.
      simpl in H0. rewrite H0.
      apply (IH i check tag); [done..|].
      intros j d Hj Hd. apply (Hbefore (S j)); [lia | done].
Qed.

Lemma firstMatch_none ds v :
  Forall (λ d, d.1 v = false) ds → firstMatch ds v = getType v.
Proof.
  induction 1 as [|[check tag] ds Hd _ IH]; simpl in *; [done|]. by rewrite Hd.
Qed.

(** C1. [getRealType] evaluates the discriminations array, date, regexp,
    set, map, error, buffer, blob, NaN, null, Infinity, generator function
    in this order, the first check that holds decides the tag, and a value
    on which no check holds gets its coarse tag: the function is total. *)
Theorem getRealType_first_match (v : value) :
  getRealType v = realType_spec v
  ∧ discriminations.*2 =
      [ "array"; "date"; "regexp"; "set"; "map"; "error"; "buffer"; "blob";
        "NaN"; "null"; "Infinity"; "generator function" ]
  ∧ (∀ i check tag,
       discriminations !! i = Some (check, tag) →
       check v = true →
       (∀ j d, j < i → discriminations !! j = Some d → d.1 v = false) →
       getRealType v = tag)
  ∧ (Forall (λ d, d.1 v = false) discriminations → getRealType v = getType v).
Proof.
  assert (getRealType v = realType_spec v) as Hspec.
  { unfold getRealType, realType_spec, discriminations, firstMatch.
    by rewrite strictEq_Null, strictEq_Infinity, generator_check. }
  split; [done|]. split; [done|]. rewrite Hspec. split.
  - apply firstMatch_at.
  - apply firstMatch_none.
Qed.

Lemma getRealType_first_match_witness :
  getRealType (Boolean true) = getType (Boolean true)
  ∧ getRealType (Arr 0 [DateP; ObjectP] []) = "array"
  ∧ getRealType (Number NaN) = "NaN".
Proof.
  split; [|split].
  - apply (proj2 (proj2 (proj2 (getRealType_first_match (Boolean true))))).
    repeat constructor.
  - apply (proj1 (proj2 (proj2 (getRealType_first_match (Arr 0 [DateP; ObjectP] []))))
             0 isArray "array"); [reflexivity | reflexivity |].
    intros j d Hj. lia.
  - apply (proj1 (proj2 (proj2 (getRealType_first_match (Number NaN))))
             8 Number_isNaN "NaN"); [reflexivity | reflexivity |].
    intros j d Hj Hd.
    do 8 (destruct j as [|j]; [by simplify_eq/=|]). lia.
Defined.

(** The repository's own checks of the two classifiers. *)
Example getTypesOfItems_knownTypes :
  getTypesOfItems knownTypes =
    strings
    [ "boolean"; "number"; "string"; "object"; "object"; "function";
      "undefined"; "object"; "number"; "number"; "object"; "object";
      "object"; "bigint"; "object"; "symbol"; "object"; "object"; "object";
      "function" ].
Proof. reflexivity. Qed.

Example getRealTypesOfItems_knownTypes :
  getRealTypesOfItems knownTypes =
    [ "boolean"; "number"; "string"; "array"; "object"; "function";
      "undefined"; "null"; "NaN"; "Infinity"; "date"; "regexp"; "set";
      "bigint"; "error"; "symbol"; "map"; "buffer"; "blob";
      "generator function" ].
Proof. reflexivity. Qed.

(** The order is observable: an array whose prototype chain holds
    [Date.prototype] is an array. *)
Example getRealType_array_before_date :
  getRealType (Arr 0 [DateP; ObjectP] []) = "array"
  ∧ getRealType (Obj 0 [DateP; ObjectP]) = "date".
Proof. done. Qed.

(** C8. Only positive infinity is refined: [-Infinity] passes every check
    and gets the coarse tag. *)
Theorem getRealType_infinities :
  getRealType (Number Infinity) = "Infinity"
  ∧ getRealType (Number NegInfinity) = "number"
  ∧ Forall (λ d, d.1 (Number NegInfinity) = false) discriminations
  ∧ strictEq (Number NegInfinity) (Number Infinity) = false.
Proof. split; [done|]. split; [done|]. split; [|done]. repeat constructor. Qed.

(** ** Equality helper *)

(** Induction on values that reaches the elements of arrays. *)
Lemma value_ind_elems (P : value → Prop) :
  P Undefined → P Null → (∀ b, P (Boolean b)) → (∀ x, P (Number x)) →
  (∀ n, P (BigInt n)) → (∀ s, P (Str s)) → (∀ id, P (Symbol id)) →
  (∀ addr chain, P (Obj addr chain)) →
  (∀ addr chain elems,
     Forall (λ slot, ∀ x, slot = Some x → P x) elems → P (Arr addr chain elems)) →
  (∀ addr chain name, P (Fun addr chain name)) →
  ∀ v, P v.
Proof.
  intros HU HN HB HNum HBig HS HSym HObj HArr HFun.
  fix IH 1.
  intros [| |b|x|n|s|id|addr chain|addr chain elems|addr chain name];
    [apply HU | apply HN | apply HB | apply HNum | apply HBig | apply HS
    | apply HSym | apply HObj | | apply HFun].
  apply HArr. induction elems as [|[e|] elems IHelems]; constructor.
  - intros x [= <-]. apply IH.
  - apply IHelems.
  - intros x [=].
  - apply IHelems.
Qed.

Lemma everyFrom_lookup {A} (f : A → nat → bool) (i : nat) (l : list (option A)) :
  everyFrom f i l = true ↔ ∀ j x, l !! j = Some (Some x) → f x (i + j) = true.
Proof.
  revert i. induction l as [|[y|] l IH]; intros i; simpl.
  - split; [intros _ j x Hj; by rewrite lookup_nil in Hj | done].
  - rewrite andb_true_iff, IH. split.
    + intros [Hy Hl] [|j] x Hj; simplify_eq/=.
      * by rewrite Nat.add_0_r.
      * rewrite Nat.add_succ_r. by apply Hl.
    + intros H. split.
      * rewrite <- (Nat.add_0_r i). by apply (H 0).
      * intros j x Hj. rewrite Nat.add_succ_l, <- Nat.add_succ_r. by apply (H (S j)).
  - rewrite IH. split.
    + intros Hl [|j] x Hj; simplify_eq/=.
      rewrite Nat.add_succ_r. by apply Hl.
    + intros H j x Hj. rewrite Nat.add_succ_l, <- Nat.add_succ_r. by apply (H (S j)).
Qed.

Lemma readAt_lookup elems i slot : elems !! i = Some slot → readAt elems i = readSlot slot.
Proof. intros H. unfold readAt. by rewrite H. Qed.


Lemma withoutHoles_Arr addr chain elems :
  withoutHoles (Arr addr chain elems) = true ↔
    ∀ i slot, elems !! i = Some slot → ∃ x, slot = Some x ∧ withoutHoles x = true.
Proof.
  simpl. rewrite forallb_forall. split.
  - intros H i slot Hi.
    assert (In slot elems) as Hin by (by eapply list_elem_of_In, list_elem_of_lookup_2).
    apply H in Hin. destruct slot as [x|]; [by exists x | done].
  - intros H slot [i Hi]%list_elem_of_In%list_elem_of_lookup.
    by destruct (H i slot Hi) as (x & -> & Hx).
Qed.

(** The source's reading of [areEqual]: one test on both operands. *)
Lemma areEqual_unfold a b :
  areEqual a b =
    if isArray a && isArray b then
      bool_decide (length (elemsOf a) = length (elemsOf b))
      && every (elemsOf a)
           (λ element index, areEqual element (readAt (elemsOf b) index))
    else strictEq a b.
Proof. destruct a, b; reflexivity. Qed.

(** On two arrays: the elements that the first operand holds are compared
    with what the second one gives at their index. *)
Lemma areEqual_arrays a b :
  isArray a = true → isArray b = true →
  areEqual a b = true ↔
    length (elemsOf a) = length (elemsOf b)
    ∧ ∀ i x, elemsOf a !! i = Some (Some x) →
        areEqual x (readAt (elemsOf b) i) = true.
Proof.
  intros Ha Hb. rewrite areEqual_unfold, Ha, Hb. simpl. unfold every.
  by rewrite andb_true_iff, bool_decide_eq_true, everyFrom_lookup.
Qed.


Lemma areEqual_not_arrays a b :
  isArray a && isArray b = false → areEqual a b = strictEq a b.
Proof. intros H. by rewrite areEqual_unfold, H. Qed.




Lemma depth_elem addr chain elems i x :
  elems !! i = Some (Some x) → depth x < depth (Arr addr chain elems).
Proof.
  intros Hi. simpl. apply Nat.lt_succ_r.
  revert i Hi. induction elems as [|slot elems IH]; intros [|i] Hi; simplify_eq/=.
  - lia.
  - specialize (IH i Hi). lia.
Qed.

Lemma reads_slots h n addr chain elems :
  Graph.reads h n (Arr addr chain elems) →
  ∃ slots, Graph.slotsOf h n = Some slots
           ∧ Forall2 (option_Forall2 (Graph.reads h)) slots elems.
Proof.
  inversion 1 as [|? ? slots ? Hcell Hall]; simplify_eq/=.
  - eexists. split; [done|]. apply Forall2_fmap_l, Forall_Forall2_diag, Forall_forall.
    intros [x|] _; constructor. constructor.
  - by exists slots.
Qed.

Lemma reads_not_array h n v :
  Graph.reads h n v → isArray v = false → n = Graph.Leaf v.
Proof. by inversion 1. Qed.

Lemma reads_readAt h slots elems i :
  Forall2 (option_Forall2 (Graph.reads h)) slots elems →
  Graph.reads h (Graph.readAt slots i) (readAt elems i).
Proof.
  intros Hall. unfold Graph.readAt, readAt.
  destruct (slots !! i) as [slot|] eqn:Hslot.
  - destruct (Forall2_lookup_l _ _ _ _ _ Hall Hslot) as (e & -> & Hread).
    destruct Hread; [done | constructor].
  - apply lookup_ge_None in Hslot. rewrite (Forall2_length _ _ _ Hall) in Hslot.
    apply lookup_ge_None in Hslot. rewrite Hslot. constructor.
Qed.

Lemma Graph_everyFrom_reads h f g slots elems :
  Forall2 (option_Forall2 (Graph.reads h)) slots elems →
  ∀ i,
  (∀ j x y, slots !! j = Some (Some x) → elems !! j = Some (Some y) →
            f x (i + j) = Some (g y (i + j))) →
  Graph.everyFrom f i slots = Some (everyFrom g i elems).
Proof.
  induction 1 as [|slot e slots elems Hslot Hall IH]; intros i Hf; [done|].
  assert (Graph.everyFrom f (S i) slots = Some (everyFrom g (S i) elems)) as Hrest.
  { apply IH. intros j x y Hx Hy. rewrite Nat.add_succ_l, <- Nat.add_succ_r.
    by apply (Hf (S j)). }
  destruct Hslot as [x y Hxy|]; simpl; [|done].
  specialize (Hf 0 x y eq_refl eq_refl). rewrite Nat.add_0_r in Hf. rewrite Hf.
  by destruct (g y i).
Qed.

(** On nodes that stand for values of finite nesting the run over the heap
    returns as soon as the calls may nest deeper than the first operand
    does, and what it returns is [areEqual] of the two values. *)
Lemma Graph_areEqual_reads h a :
  ∀ b na nb fuel,
  Graph.reads h na a → Graph.reads h nb b → depth a < fuel →
  Graph.areEqual fuel h na nb = Some (areEqual a b).
Proof.
  induction a as [| |bo|x|n|s|id|ad ch|addr chain ea IH|ad ch nm] using value_ind_elems;
    intros b na nb [|fuel] Ha Hb Hfuel; try lia.
  1-8, 10: pose proof (reads_not_array _ _ _ Ha eq_refl) as ->; simpl;
    (inversion Hb; simplify_eq/=; [by destruct b | done]).
  destruct (reads_slots _ _ _ _ _ Ha) as (sa & Hsa & Halla).
  simpl. rewrite Hsa.
  destruct (isArray b) eqn:Harr.
  - destruct b as [| | | | | | | |addr' chain' eb|]; try done.
    destruct (reads_slots _ _ _ _ _ Hb) as (sb & Hsb & Hallb).
    rewrite Hsb, (Forall2_length _ _ _ Halla), (Forall2_length _ _ _ Hallb).
    change (areEqual (Arr addr chain ea) (Arr addr' chain' eb))
      with (bool_decide (length ea = length eb)
            && every ea (λ element index, areEqual element (readAt eb index))).
    case_bool_decide; [|done]. simpl. unfold every.
    apply (Graph_everyFrom_reads h); [done|].
    intros j x y Hx Hy. simpl.
    pose proof (Forall2_lookup_lr _ _ _ _ _ _ Halla Hx Hy) as Hxy.
    inversion Hxy; simplify_eq.
    eapply Forall_lookup_1 in IH; [|done]. apply (IH y eq_refl).
    + done.
    + by apply reads_readAt.
    + pose proof (depth_elem addr chain ea j y Hy). lia.
  - pose proof (reads_not_array _ _ _ Hb Harr) as ->.
    destruct b; try done; inversion Ha; simplify_eq/=; done.
Qed.





(** The repository's own check of [areEqual], and the template's one-level
    version on nested arrays. *)
Example areEqual_null_undefined :
  areEqual (arrayOf 0 [Number (num 1); Null; Number (num 3)])
           (arrayOf 1 [Number (num 1); Undefined; Number (num 3)])
  = false.
Proof. reflexivity. Qed.

Example IndexJs_areEqual_one_level :
  let a := arrayOf 0 [arrayOf 1 [Number (num 1)]] in
  let b := arrayOf 2 [arrayOf 3 [Number (num 1)]] in
  IndexJs.areEqual a b = false ∧ areEqual a b = true.
Proof. split; reflexivity. Qed.

(** [every] passes over the holes of the first operand only. *)
Example areEqual_holes :
  areEqual (Arr 0 [ArrayP; ObjectP] [None]) (arrayOf 1 [Number (num 1)]) = true
  ∧ areEqual (arrayOf 1 [Number (num 1)]) (Arr 0 [ArrayP; ObjectP] [None]) = false
  ∧ areEqual (arrayOf 2 [Undefined]) (Arr 0 [ArrayP; ObjectP] [None]) = true.
Proof. repeat split; reflexivity. Qed.

(** C10. [areEqual] is not reflexive: an array that holds NaN at some
    position differs from itself, since NaN is not strictly equal to NaN. *)
Theorem areEqual_not_reflexive :
  (∃ a, areEqual a a = false)
  ∧ (∀ addr chain elems, Some (Number NaN) ∈ elems →
       areEqual (Arr addr chain elems) (Arr addr chain elems) = false)
  ∧ strictEq (Number NaN) (Number NaN) = false.
Proof.
  assert (∀ addr chain elems, Some (Number NaN) ∈ elems →
            areEqual (Arr addr chain elems) (Arr addr chain elems) = false) as Hnan.
  { intros addr chain elems [i Hi]%list_elem_of_lookup.
    apply not_true_iff_false. intros [_ Hall]%areEqual_arrays; [|done..].
    specialize (Hall i _ Hi). simpl in Hall.
    by rewrite (readAt_lookup _ _ _ Hi) in Hall. }
  split; [|split; [done|done]].
  exists (arrayOf 0 [Number NaN]). apply Hnan. apply list_elem_of_here.
Qed.

Lemma areEqual_not_reflexive_witness :
  areEqual (arrayOf 0 [Number NaN]) (arrayOf 0 [Number NaN]) = false.
Proof.
  apply (proj1 (proj2 areEqual_not_reflexive) 0 [ArrayP; ObjectP] [Some (Number NaN)]).
  apply list_elem_of_here.
Defined.

(** ** List analyzers *)


Lemma newSet_singleton (l : list (option string)) (t : option string) :
  newSet l = {[ t ]} ↔ l ≠ [] ∧ ∀ x, x ∈ l → x = t.
Proof.
  unfold newSet. split.
  - intros Hset. split.
    + intros ->. simpl in Hset.
      by apply (non_empty_singleton_L (C := gset (option string)) t).
    + intros x Hx. apply (elem_of_list_to_set (C := gset (option string))) in Hx.
      rewrite Hset in Hx. by apply elem_of_singleton in Hx.
  - intros [Hne Hall]. apply set_eq. intros x.
    rewrite elem_of_list_to_set, elem_of_singleton. split; [by apply Hall|].
    intros ->. destruct l as [|y l]; [done|].
    rewrite (Hall y); [apply list_elem_of_here | apply list_elem_of_here].
Qed.

Lemma size_newSet_one (l : list (option string)) :
  size (newSet l) = 1 ↔ ∃ t, newSet l = {[ t ]}.
Proof.
  split.
  - intros [t Ht]%size_1_elem_of. exists t. by apply leibniz_equiv.
  - intros [t ->]. apply size_singleton.
Qed.

Lemma allItemsHaveTheSameType_set (arr : list (option value)) :
  arr ≠ [] →
  allItemsHaveTheSameType arr = true ↔ ∃ t, newSet (getTypesOfItems arr) = {[ t ]}.
Proof.
  intros Hne. unfold allItemsHaveTheSameType.
  rewrite bool_decide_eq_true_2 by (destruct arr; [done | simpl; lia]).
  by rewrite bool_decide_eq_true, size_newSet_one.
Qed.

Lemma getTypesOfItems_literal (elems : list value) :
  getTypesOfItems (literal elems) = strings (getType <$> elems).
Proof.
  unfold getTypesOfItems, literal, strings. by rewrite <- !list_fmap_compose.
Qed.

Lemma noHole_literal (arr : list (option value)) :
  noHole arr = true ↔ arr = literal (iterated arr).
Proof.
  induction arr as [|[x|] arr IH]; [done| |done].
  change (noHole arr = true ↔ Some x :: arr = Some x :: literal (iterated arr)).
  rewrite IH. split; [intros Harr; by f_equal | by intros [= ?]].
Qed.

(** C5. On the array [[undefined, <hole>]] every element has the coarse tag
    "undefined", yet [allItemsHaveTheSameType] is false: [map] leaves the
    hole in the array of tags, where [new Set] reads the value [undefined]
    next to the string "undefined".  The template's loop reads the hole
    as [undefined] and answers true. *)
Theorem allItemsHaveTheSameType_hole :
  let arr := [Some Undefined; None] in
  allItemsHaveTheSameType arr = false
  ∧ Forall (λ x, getType x = "undefined") (iterated arr)
  ∧ getTypesOfItems arr = [Some "undefined"; None]
  ∧ size (newSet (getTypesOfItems arr)) = 2
  ∧ Template.allItemsHaveTheSameType arr = true.
Proof. repeat split; try reflexivity. by repeat constructor. Qed.

Lemma allItemsHaveTheSameType_literal (elems : list value) :
  elems ≠ [] →
  (allItemsHaveTheSameType (literal elems) = true
   ↔ ∃ t, newSet (getTypesOfItems (literal elems)) = {[ Some t ]})
  ∧ (allItemsHaveTheSameType (literal elems) = true
     ↔ ∃ t, ∀ x, x ∈ elems → getType x = t).
Proof.
  intros Hne.
  assert (literal elems ≠ []) as Hne' by (by destruct elems).
  rewrite (allItemsHaveTheSameType_set _ Hne'), getTypesOfItems_literal.
  unfold strings.
  assert ((∃ t, newSet (Some <$> (getType <$> elems)) = {[ Some t ]})
          ↔ ∃ t, ∀ x, x ∈ elems → getType x = t) as Htags.
  { split.
    - intros [t [_ Ht]%newSet_singleton]. exists t. intros x Hx.
      apply (inj Some), Ht. by do 2 apply list_elem_of_fmap_2.
    - intros [t Ht]. exists t. apply newSet_singleton. split.
      + by destruct elems.
      + intros ? (? & -> & (x & -> & Hx)%list_elem_of_fmap)%list_elem_of_fmap.
        by rewrite (Ht x). }
  assert ((∃ t, newSet (Some <$> (getType <$> elems)) = {[ t ]})
          ↔ ∃ t, newSet (Some <$> (getType <$> elems)) = {[ Some t ]}) as Hsome.
  { split.
    - intros [[t|] Hset]; [by exists t|].
      apply newSet_singleton in Hset as [_ Ht]. destruct elems as [|x elems]; [done|].
      by specialize (Ht (Some (getType x)) (list_elem_of_here _ _)).
    - intros [t Ht]. by exists (Some t). }
  split; [done|]. by rewrite Hsome.
Qed.

(** On an array without holes the claim holds: on a non-empty one
    [allItemsHaveTheSameType] holds iff the set of the coarse tags of the
    elements has exactly one member, that is iff all elements have one
    coarse tag. *)
Lemma allItemsHaveTheSameType_noHole (arr : list (option value)) :
  arr ≠ [] → noHole arr = true →
  (allItemsHaveTheSameType arr = true
   ↔ ∃ t, newSet (getTypesOfItems arr) = {[ Some t ]})
  ∧ (allItemsHaveTheSameType arr = true
     ↔ ∃ t, ∀ x, x ∈ iterated arr → getType x = t).
Proof.
  intros Hne Hdense. apply noHole_literal in Hdense.
  pose proof (allItemsHaveTheSameType_literal (iterated arr)) as Hliteral.
  rewrite <- Hdense in Hliteral. apply Hliteral. by destruct arr.
Qed.

(** The repository's own checks of [allItemsHaveTheSameType]. *)
Example allItemsHaveTheSameType_checks :
  allItemsHaveTheSameType (literal [Number (num 11); Number (num 12); Number (num 13)]) = true
  ∧ allItemsHaveTheSameType (literal [Str "11"; Str "12"; Str "13"]) = true
  ∧ allItemsHaveTheSameType (literal [Str "11"; Obj 0 [StringP; ObjectP]; Str "13"]) = false
  ∧ allItemsHaveTheSameType (literal [Number (num 123); Number NaN; Number Infinity]) = true
  ∧ allItemsHaveTheSameType (literal [Obj 0 [ObjectP]]) = true
  ∧ allItemsHaveTheSameType (literal [Str "123"; Str "123"]) = true
  ∧ allItemsHaveTheSameType
      (literal [arrayOf 0 [Number (num 1); Number (num 2); Number (num 3)];
                arrayOf 1 [Number (num 1); Number (num 2); Number (num 3)];
                arrayOf 2 [Number (num 1); Number (num 2); Number (num 3)]]) = true.
Proof. repeat split; reflexivity. Qed.

Lemma size_newSet_le (l : list (option string)) : size (newSet l) ≤ length l.
Proof.
  unfold newSet. induction l as [|x l IH].
  - by rewrite list_to_set_nil, size_empty.
  - rewrite list_to_set_cons, size_union_alt, size_singleton. simpl.
    assert (size (list_to_set l ∖ {[x]} : gset (option string))
            ≤ size (list_to_set l : gset (option string)))
      as Hle by apply subseteq_size, subseteq_difference_l, reflexivity.
    lia.
Qed.

Lemma size_newSet_NoDup (l : list (option string)) :
  size (newSet l) = length l ↔ NoDup l.
Proof.
  split; [|apply size_list_to_set].
  induction l as [|x l IH]; intros Hsize; [constructor|].
  unfold newSet in *. rewrite list_to_set_cons in Hsize. simpl in Hsize.
  destruct (decide (x ∈ l)) as [Hin|Hnotin].
  - assert ({[x]} ∪ list_to_set l = (list_to_set l : gset (option string))) as Heq.
    { apply subseteq_union_1_L, singleton_subseteq_l. by apply elem_of_list_to_set. }
    rewrite Heq in Hsize. pose proof (size_newSet_le l) as Hle. unfold newSet in *. lia.
  - constructor; [done|]. apply IH.
    rewrite size_union, size_singleton in Hsize; [lia|].
    apply disjoint_singleton_l. by rewrite elem_of_list_to_set.
Qed.

Lemma size_newSet_strings (l : list string) :
  size (newSet (strings l)) = length l ↔ NoDup l.
Proof.
  rewrite <- (length_fmap Some l), <- (NoDup_fmap Some l). apply size_newSet_NoDup.
Qed.

(** C6. [everyItemHasAUniqueRealType] holds iff the set of the real-type
    tags has as many members as the list has elements, that is iff no two
    elements share a real-type tag; on the empty list it holds.  The
    elements are those the loop reads: a hole counts as [undefined]. *)
Theorem everyItemHasAUniqueRealType_spec (arr : list (option value)) :
  (everyItemHasAUniqueRealType arr = true
   ↔ size (newSet (strings (getRealType <$> iterated arr))) = length arr)
  ∧ (everyItemHasAUniqueRealType arr = true ↔ NoDup (getRealType <$> iterated arr))
  ∧ (everyItemHasAUniqueRealType arr = true
     ↔ ∀ i j x y, iterated arr !! i = Some x → iterated arr !! j = Some y →
         getRealType x = getRealType y → i = j)
  ∧ everyItemHasAUniqueRealType [] = true.
Proof.
  assert (everyItemHasAUniqueRealType arr = true
          ↔ size (newSet (strings (getRealType <$> iterated arr))) = length arr)
    as Hsize.
  { unfold everyItemHasAUniqueRealType. rewrite getRealTypesOfItems_map.
    destruct arr as [|x arr]; [done|].
    rewrite bool_decide_eq_true_2 by (simpl; lia). apply bool_decide_eq_true. }
  assert (everyItemHasAUniqueRealType arr = true
          ↔ NoDup (getRealType <$> iterated arr)) as Hnodup.
  { rewrite Hsize, <- (length_iterated arr), <- (length_fmap getRealType (iterated arr)).
    apply size_newSet_strings. }
  repeat split; try tauto.
  - intros Hevery i j x y Hi Hj Hxy. apply Hnodup in Hevery.
    eapply NoDup_lookup; [done| |].
    + by rewrite list_lookup_fmap, Hi.
    + by rewrite list_lookup_fmap, Hj, Hxy.
  - intros Hinj. apply Hnodup, NoDup_alt. intros i j t Hi Hj.
    rewrite list_lookup_fmap in Hi, Hj.
    destruct (iterated arr !! i) as [x|] eqn:Hx, (iterated arr !! j) as [y|] eqn:Hy;
      simplify_eq/=.
    by eapply Hinj.
Qed.

(** The repository's own checks of [everyItemHasAUniqueRealType]. *)
Example everyItemHasAUniqueRealType_checks :
  everyItemHasAUniqueRealType (literal [Boolean true; Number (num 123); Str "123"]) = true
  ∧ everyItemHasAUniqueRealType (literal [Boolean true; Number (num 123); Boolean false]) = false
  ∧ everyItemHasAUniqueRealType knownTypes = true.
Proof. repeat split; reflexivity. Qed.

(** ** The counter object *)

Lemma propGet_None {T} (o : StringMap T) key : propGet o key = None ↔ key ∉ o.*1.
Proof.
  induction o as [|[k x] o IH]; simpl.
  - split; [intros _; apply not_elem_of_nil | done].
  - rewrite not_elem_of_cons. destruct (decide (k = key)) as [->|Hne].
    + split; [done | by intros [? _]].
    + rewrite IH. split; [done | by intros [_ ?]].
Qed.

Lemma propGet_elem_of {T} (o : StringMap T) key x :
  NoDup o.*1 → (key, x) ∈ o ↔ propGet o key = Some x.
Proof.
  induction o as [|[k y] o IH]; simpl; intros Hdup.
  - by rewrite elem_of_nil.
  - apply NoDup_cons in Hdup as [Hk Hdup]. rewrite elem_of_cons, (IH Hdup).
    destruct (decide (k = key)) as [->|Hne].
    + split; [|intros [= ->]; by left].
      intros [[= ->]|Hget]; [done|]. destruct Hk.
      apply dec_stable. intros Hnot%propGet_None. by rewrite Hnot in Hget.
    + split; [intros [[= ? ?]|?]; done | by right].
Qed.

Lemma propSet_keys_old {T} (o : StringMap T) key x :
  key ∈ o.*1 → (propSet o key x).*1 = o.*1.
Proof.
  induction o as [|[k y] o IH]; simpl; intros Hin.
  - by apply elem_of_nil in Hin.
  - destruct (decide (k = key)) as [->|Hne]; simpl; [done|].
    apply elem_of_cons in Hin as [->|Hin]; [done|]. f_equal. by apply IH.
Qed.

Lemma propSet_keys_new {T} (o : StringMap T) key x :
  key ∉ o.*1 → (propSet o key x).*1 = o.*1 ++ [key].
Proof.
  induction o as [|[k y] o IH]; simpl; intros Hnotin; [done|].
  apply not_elem_of_cons in Hnotin as [Hne Hnotin].
  destruct (decide (k = key)) as [->|_]; simpl; [done|]. f_equal. by apply IH.
Qed.

(** The count a counter holds for a key, [0] when it has none. *)
Lemma propSet_get {T} (o : StringMap T) key x key' :
  propGet (propSet o key x) key' =
    if decide (key = key') then Some x else propGet o key'.
Proof.
  induction o as [|[k y] o IH]; simpl.
  - by destruct (decide (key = key')).
  - destruct (decide (k = key)) as [->|Hne]; simpl.
    + by destruct (decide (key = key')).
    + rewrite IH. destruct (decide (k = key')) as [->|Hne']; [|done].
      by rewrite decide_False by done.
Qed.

Lemma propSet_sum (o : StringMap nat) key x :
  sum_list_with snd (propSet o key x) + default 0 (propGet o key)
  = sum_list_with snd o + x.
Proof.
  induction o as [|[k y] o IH]; simpl; [lia|].
  destruct (decide (k = key)); simpl; lia.
Qed.

Lemma propSet_Forall {T} (P : T → Prop) (o : StringMap T) key x :
  Forall (λ p, P p.2) o → P x → Forall (λ p, P p.2) (propSet o key x).
Proof.
  intros Ho Hx. induction Ho as [|[k y] o Hy Ho IH]; simpl.
  - by constructor.
  - destruct (decide (k = key)); by constructor.
Qed.

Lemma countStep_keys o realType :
  (realType ∈ o.*1 ∧ (countStep o realType).*1 = o.*1)
  ∨ ((realType ∉ o.*1) ∧ (countStep o realType).*1 = (o.*1) ++ [realType]).
Proof.
  unfold countStep. destruct (decide (realType ∈ o.*1)); [left | right].
  - by rewrite propSet_keys_old.
  - by rewrite propSet_keys_new.
Qed.

Lemma countStep_sum o realType :
  sum_list_with snd (countStep o realType) = S (sum_list_with snd o).
Proof.
  unfold countStep. pose proof (propSet_sum o realType) as Hsum.
  destruct (propGet o realType) as [c|]; simpl in *.
  - specialize (Hsum (c + 1)). lia.
  - specialize (Hsum 1). lia.
Qed.

Lemma countStep_positive o realType :
  Forall (λ p, 1 ≤ p.2) o → Forall (λ p, 1 ≤ p.2) (countStep o realType).
Proof.
  intros Ho. apply (propSet_Forall (λ n, 1 ≤ n)); [done|].
  destruct (propGet o realType); lia.
Qed.

Lemma countStep_get o realType key :
  default 0 (propGet (countStep o realType) key) =
    default 0 (propGet o key) + (if decide (realType = key) then 1 else 0).
Proof.
  unfold countStep. rewrite propSet_get.
  destruct (decide (realType = key)) as [->|]; simpl; [|lia].
  destruct (propGet o key); simpl; lia.
Qed.

(** The counting loop, from any counter. *)
Lemma counting_keys l : ∀ o,
  ∃ new, (fold_left countStep l o).*1 = o.*1 ++ new ∧ new `sublist_of` l.
Proof.
  induction l as [|x l IH]; intros o; simpl.
  - exists []. by rewrite app_nil_r.
  - destruct (IH (countStep o x)) as (new & -> & Hsub).
    destruct (countStep_keys o x) as [[_ ->]|[_ ->]].
    + exists new. split; [done | by apply sublist_cons].
    + exists (x :: new). split; [by rewrite <- app_assoc | by apply sublist_skip].
Qed.

Lemma counting_NoDup l : ∀ o, NoDup o.*1 → NoDup (fold_left countStep l o).*1.
Proof.
  induction l as [|x l IH]; intros o Ho; simpl; [done|].
  apply IH. destruct (countStep_keys o x) as [[_ ->]|[Hx ->]]; [done|].
  apply NoDup_app. split; [done|]. split; [|apply NoDup_singleton].
  intros y Hy ->%list_elem_of_singleton. done.
Qed.

Lemma counting_sum l : ∀ o,
  sum_list_with snd (fold_left countStep l o) = sum_list_with snd o + length l.
Proof.
  induction l as [|x l IH]; intros o; simpl; [lia|].
  rewrite IH, countStep_sum. lia.
Qed.

Lemma counting_positive l : ∀ o,
  Forall (λ p, 1 ≤ p.2) o → Forall (λ p, 1 ≤ p.2) (fold_left countStep l o).
Proof.
  induction l as [|x l IH]; intros o Ho; simpl; [done|].
  by apply IH, countStep_positive.
Qed.

Lemma counting_get l key : ∀ o,
  default 0 (propGet (fold_left countStep l o) key) =
    default 0 (propGet o key) + length (filter (λ x, x = key) l).
Proof.
  induction l as [|x l IH]; intros o; simpl; [lia|].
  rewrite IH, countStep_get, filter_cons.
  destruct (decide (x = key)); simpl; lia.
Qed.

(** ** Sorting and the order of the entries *)

Lemma StronglySorted_sublist {A} (R : relation A) (l1 l2 : list A) :
  l1 `sublist_of` l2 → StronglySorted R l2 → StronglySorted R l1.
Proof.
  induction 1 as [|x l1 l2 Hsub IH|x l1 l2 Hsub IH]; intros Hsorted; [done|..].
  - apply StronglySorted_inv in Hsorted as [Hl2 Hx]. constructor; [by apply IH|].
    apply Forall_forall. intros y Hy. eapply Forall_forall; [done|].
    by eapply elem_of_sublist.
  - apply StronglySorted_inv in Hsorted as [Hl2 _]. by apply IH.
Qed.

Lemma StronglySorted_NoDup_tagBefore (l : list string) :
  StronglySorted String.le l → NoDup l → StronglySorted tagBefore l.
Proof.
  induction 1 as [|x l Hl IH Hx]; intros Hdup; [constructor|].
  apply NoDup_cons in Hdup as [Hnotin Hdup]. constructor; [by apply IH|].
  apply Forall_forall. intros y Hy. split; [by eapply Forall_forall|].
  by intros ->.
Qed.

Lemma sort_sorted l : StronglySorted String.le (sort l).
Proof. apply StronglySorted_merge_sort; apply _. Qed.

Lemma sort_permutation l : sort l ≡ₚ l.
Proof. apply merge_sort_Permutation. Qed.

Lemma sort_of_permutation l1 l2 : l1 ≡ₚ l2 → sort l1 = sort l2.
Proof.
  intros Hperm. apply (Sorted_unique String.le).
  - apply Sorted_merge_sort; apply _.
  - apply Sorted_merge_sort; apply _.
  - by rewrite !sort_permutation.
Qed.

(** No real-type tag is an array index, so [Object.entries] lists the
    counter's properties in the order of their creation. *)
Lemma realTypeTags_no_index : Forall (λ t, arrayIndex t = None) realTypeTags.
Proof. repeat constructor. Qed.

Lemma Object_entries_creation_order {T} (o : StringMap T) :
  Forall (λ k, arrayIndex k = None) o.*1 → Object_entries o = o.
Proof.
  intros Hkeys. unfold Object_entries.
  assert (filter (λ p : string * T, is_Some (arrayIndex p.1)) o = []
          ∧ filter (λ p : string * T, arrayIndex p.1 = None) o = o) as [-> ->]; [|done].
  induction o as [|[k x] o IH]; [done|].
  apply Forall_cons in Hkeys as [Hk Hkeys]. destruct (IH Hkeys) as [IH1 IH2].
  split.
  - rewrite (filter_cons_False (λ p : string * T, is_Some (arrayIndex p.1)));
      [done|]. simpl in *. rewrite Hk. by intros [? ?].
  - rewrite (filter_cons_True (λ p : string * T, arrayIndex p.1 = None));
      [by f_equal | done].
Qed.

(** The result of [countRealTypes] on an array, as the counter built from
    the sorted tags. *)
Lemma countRealTypes_counter (L : list (option value)) :
  countRealTypes (ArgArray L)
  = fold_left countStep (sort (getRealType <$> iterated L)) [].
Proof.
  unfold countRealTypes. simpl. rewrite getRealTypesOfItems_map.
  apply Object_entries_creation_order.
  destruct (counting_keys (sort (getRealType <$> iterated L)) []) as (new & -> & Hsub).
  simpl. apply Forall_forall. intros t Ht.
  eapply elem_of_sublist in Ht; [|done].
  rewrite sort_permutation in Ht.
  apply list_elem_of_fmap in Ht as (v & -> & _).
  apply (proj1 (Forall_forall _ _) realTypeTags_no_index), getRealType_tag.
Qed.

Lemma countRealTypes_keys_sorted (L : list (option value)) :
  StronglySorted tagBefore (countRealTypes (ArgArray L)).*1.
Proof.
  rewrite countRealTypes_counter.
  apply StronglySorted_NoDup_tagBefore.
  - destruct (counting_keys (sort (getRealType <$> iterated L)) []) as (new & -> & Hsub).
    simpl. eapply StronglySorted_sublist; [done | apply sort_sorted].
  - apply counting_NoDup. constructor.
Qed.

(** C2. The pairs of [countRealTypes] have pairwise distinct tags, counts
    that sum to the length of the list and are at least 1, and come in
    ascending lexicographic order of the tags; each count is the number of
    elements of that real type. *)
Theorem countRealTypes_spec (L : list (option value)) :
  let r := countRealTypes (ArgArray L) in
  NoDup r.*1
  ∧ sum_list_with snd r = length L
  ∧ Forall (λ p, 1 ≤ p.2) r
  ∧ StronglySorted String.le r.*1
  ∧ ∀ t n, (t, n) ∈ r ↔
      n = length (filter (λ v, getRealType v = t) (iterated L)) ∧ 1 ≤ n.
Proof.
  intros r. subst r. rewrite countRealTypes_counter.
  set (tags := getRealType <$> iterated L).
  assert (NoDup (fold_left countStep (sort tags) []).*1) as Hdup
    by (apply counting_NoDup; constructor).
  assert (Forall (λ p : string * nat, 1 ≤ p.2) (fold_left countStep (sort tags) []))
    as Hpos by (apply counting_positive; constructor).
  split; [done|]. split; [|split; [done|split]].
  - rewrite counting_sum. simpl.
    rewrite (Permutation_length (sort_permutation tags)).
    unfold tags. by rewrite length_fmap, length_iterated.
  - destruct (counting_keys (sort tags) []) as (new & -> & Hsub).
    simpl. eapply StronglySorted_sublist; [done | apply sort_sorted].
  - intros t n. rewrite (propGet_elem_of _ _ _ Hdup).
    pose proof (counting_get (sort tags) t []) as Hget. simpl in Hget.
    assert (length (filter (λ x, x = t) (sort tags))
            = length (filter (λ v, getRealType v = t) (iterated L))) as Hcount.
    { rewrite (Permutation_length (filter_Permutation _ _ _ (sort_permutation tags))).
      subst tags. clear. induction (iterated L) as [|v vs IH]; [done|].
      rewrite fmap_cons, !filter_cons. destruct (decide (getRealType v = t)); simpl; lia. }
    rewrite Hcount in Hget. split.
    + intros Hn. rewrite Hn in Hget. simpl in Hget. split; [done|].
      apply propGet_elem_of in Hn; [|done].
      by eapply Forall_forall in Hpos; [|done].
    + intros [-> Hn].
      destruct (propGet (fold_left countStep (sort tags) []) t) as [m|]; simpl in *.
      * by rewrite Hget.
      * lia.
Qed.

(** C4. [countRealTypes] gives one result on all permutations of a list,
    with tags strictly increasing in lexicographic order whatever the order
    of the input; both orders of the repository's example give
    boolean 3, null 1, object 1. *)
Theorem countRealTypes_permutation (L1 L2 : list (option value)) :
  (L1 ≡ₚ L2 → countRealTypes (ArgArray L1) = countRealTypes (ArgArray L2))
  ∧ StronglySorted tagBefore (countRealTypes (ArgArray L1)).*1
  ∧ countRealTypes (ArgArray
      (literal [Obj 0 [ObjectP]; Null; Boolean true; Boolean (negb false); Boolean (negb (negb false))]))
    = [("boolean", 3); ("null", 1); ("object", 1)]
  ∧ countRealTypes (ArgArray
      (literal [Boolean true; Null; Boolean (negb false); Boolean (negb (negb false)); Obj 0 [ObjectP]]))
    = [("boolean", 3); ("null", 1); ("object", 1)].
Proof.
  split; [|split; [apply countRealTypes_keys_sorted | split; reflexivity]].
  intros Hperm. rewrite !countRealTypes_counter.
  f_equal. apply sort_of_permutation. unfold iterated. by rewrite Hperm.
Qed.

Lemma countRealTypes_permutation_witness :
  countRealTypes (ArgArray
    (literal [Obj 0 [ObjectP]; Null; Boolean true; Boolean true; Boolean false]))
  = countRealTypes (ArgArray
    (literal [Boolean true; Null; Boolean true; Boolean false; Obj 0 [ObjectP]])).
Proof.
  match goal with |- countRealTypes (ArgArray ?L1) = countRealTypes (ArgArray ?L2) =>
    apply (proj1 (countRealTypes_permutation L1 L2))
  end.
  apply fmap_Permutation.
  etrans; [apply Permutation_cons_append|].
  exact (Permutation_app_tail [Obj 0 [ObjectP]]
           (perm_swap (Boolean true) Null [Boolean true; Boolean false])).
Defined.

(** ** The program over a store *)

Section StoreRuns.
Import Store.

Implicit Types (σ : store) (l : loc).

Lemma bind_run {A B} (m : Run A) (f : A → Run B) σ a σ' :
  m σ = Some (a, σ') → (m ≫= f) σ = f a σ'.
Proof. intros Hm. unfold mbind, Run_bind. by rewrite Hm. Qed.

Lemma fresh_unused σ : σ !! fresh (dom σ) = None.
Proof. apply not_elem_of_dom, is_fresh. Qed.

Lemma alloc_run c σ :
  alloc c σ = Some (fresh (dom σ), <[fresh (dom σ) := c]> σ).
Proof. done. Qed.

Lemma readItems_run l items σ :
  σ !! l = Some (Items items) → readItems l σ = Some (items, σ).
Proof. intros Hl. unfold readItems, deref, mbind, Run_bind. by rewrite Hl. Qed.

Lemma readTags_run l tags σ :
  σ !! l = Some (Tags tags) → readTags l σ = Some (tags, σ).
Proof. intros Hl. unfold readTags, deref, mbind, Run_bind. by rewrite Hl. Qed.

Lemma readProps_run l props σ :
  σ !! l = Some (Counter props) → readProps l σ = Some (props, σ).
Proof. intros Hl. unfold readProps, deref, mbind, Run_bind. by rewrite Hl. Qed.

Lemma assign_run l c c' σ :
  σ !! l = Some c → assign l c' σ = Some (tt, <[l := c']> σ).
Proof. intros Hl. unfold assign. by rewrite Hl. Qed.

Lemma push_run l tags tag σ :
  σ !! l = Some (Tags tags) →
  push l tag σ = Some (tt, <[l := Tags (tags ++ [tag])]> σ).
Proof.
  intros Hl. unfold push.
  rewrite (bind_run _ _ _ _ _ (readTags_run _ _ _ Hl)).
  by eapply assign_run.
Qed.

Lemma sortInPlace_run l tags σ :
  σ !! l = Some (Tags tags) →
  sortInPlace l σ = Some (tt, <[l := Tags (sort tags)]> σ).
Proof.
  intros Hl. unfold sortInPlace.
  rewrite (bind_run _ _ _ _ _ (readTags_run _ _ _ Hl)).
  by eapply assign_run.
Qed.

(** The first loop fills the array at [l] and writes nowhere else. *)
Lemma push_loop_run l items : ∀ tags σ,
  σ !! l = Some (Tags tags) →
  forOf items (λ el, push l (getRealType el)) σ
  = Some (tt, <[l := Tags (tags ++ (getRealType <$> items))]> σ).
Proof.
  induction items as [|el items IH]; intros tags σ Hl; simpl.
  - rewrite app_nil_r, insert_id by done. done.
  - rewrite (bind_run _ _ _ _ _ (push_run _ _ _ _ Hl)).
    rewrite (IH (tags ++ [getRealType el])) by apply lookup_insert_eq.
    by rewrite insert_insert_eq, <- app_assoc.
Qed.

(** The second loop updates the counter at [l] and writes nowhere else. *)
Lemma counting_loop_run l tags : ∀ props σ,
  σ !! l = Some (Counter props) →
  forOf tags (λ realType,
    props ← readProps l;
    let count := propGet props realType in
    assign l (Counter (propSet props realType
                        (match count with Some c => c + 1 | None => 1 end)))) σ
  = Some (tt, <[l := Counter (fold_left countStep tags props)]> σ).
Proof.
  induction tags as [|realType tags IH]; intros props σ Hl; simpl.
  - by rewrite insert_id.
  - rewrite (bind_run _ (λ _, forOf tags _) σ tt
               (<[l := Counter (countStep props realType)]> σ)).
    + rewrite (IH (countStep props realType)) by apply lookup_insert_eq.
      by rewrite insert_insert_eq.
    + rewrite (bind_run _ _ _ _ _ (readProps_run _ _ _ Hl)).
      by eapply assign_run.
Qed.

Lemma getRealTypesOfItems_run arr L σ :
  σ !! arr = Some (Items L) →
  let realTypesArr := fresh (dom σ) in
  Store.getRealTypesOfItems arr σ
  = Some (realTypesArr, <[realTypesArr := Tags (getRealType <$> iterated L)]> σ).
Proof.
  intros Harr realTypesArr. unfold Store.getRealTypesOfItems.
  rewrite (bind_run _ _ _ _ _ (alloc_run _ σ)). fold realTypesArr.
  assert (arr ≠ realTypesArr) as Hne.
  { intros ->. subst realTypesArr. by rewrite fresh_unused in Harr. }
  rewrite (bind_run _ _ _ L (<[realTypesArr := Tags []]> σ)).
  - rewrite (bind_run _ _ _ tt (<[realTypesArr := Tags (getRealType <$> iterated L)]> σ)); [done|].
    rewrite (push_loop_run _ _ []) by apply lookup_insert_eq.
    by rewrite insert_insert_eq.
  - apply readItems_run. by rewrite lookup_insert_ne.
Qed.

End StoreRuns.

Lemma insert_fresh_preserves (σ : Store.store) (c c0 : Store.cell) (l : Store.loc) :
  σ !! l = Some c0 → <[fresh (dom σ) := c]> σ !! l = Some c0.
Proof.
  intros Hl. rewrite lookup_insert_ne; [done|].
  intros <-. by rewrite fresh_unused in Hl.
Qed.

(** C9. [countRealTypes] leaves its input as it was: run from any store
    in which [arr] names an array with elements [L], the call returns, the
    array at [arr] still has the elements [L] in their order, every other
    location of the store is unchanged too, and the sort has been applied to
    an array that did not exist before the call. *)
Theorem countRealTypes_leaves_input
    (σ : Store.store) (arr : Store.loc) (L : list (option value)) :
  σ !! arr = Some (Store.Items L) →
  ∃ result σ',
    Store.countRealTypes (Some arr) σ = Some (result, σ')
    ∧ σ' !! arr = Some (Store.Items L)
    ∧ (∀ l c, σ !! l = Some c → σ' !! l = Some c)
    ∧ σ' !! result = Some (Store.Entries (countRealTypes (ArgArray L)))
    ∧ ∃ realTypesArr,
        σ !! realTypesArr = None
        ∧ σ' !! realTypesArr = Some (Store.Tags (sort (getRealType <$> iterated L))).
Proof.
  intros Harr.
  set (tags := getRealType <$> iterated L).
  set (r := fresh (dom σ)).
  set (σ2 := <[r := Store.Tags (sort tags)]> σ).
  set (c := fresh (dom σ2)).
  set (counter := fold_left countStep (sort tags) []).
  set (σ4 := <[c := Store.Counter counter]> σ2).
  set (e := fresh (dom σ4)).
  set (σ5 := <[e := Store.Entries (Object_entries counter)]> σ4).
  assert (∀ l c0, σ !! l = Some c0 → σ5 !! l = Some c0) as Hframe.
  { intros l c0 Hl. by do 3 apply insert_fresh_preserves. }
  assert (σ2 !! r = Some (Store.Tags (sort tags))) as Hr2
    by apply lookup_insert_eq.
  assert (σ4 !! r = Some (Store.Tags (sort tags))) as Hr4
    by by apply insert_fresh_preserves.
  exists e, σ5. split; [|split; [by apply Hframe|split; [done|split]]].
  - unfold Store.countRealTypes.
    rewrite (bind_run _ _ _ _ _ (getRealTypesOfItems_run _ _ _ Harr)).
    fold r tags.
    rewrite (bind_run _ _ _ tt σ2).
    2:{ rewrite (sortInPlace_run _ tags) by apply lookup_insert_eq.
        unfold σ2. by rewrite insert_insert_eq. }
    rewrite (bind_run _ _ _ _ _ (alloc_run _ σ2)). fold c.
    rewrite (bind_run _ _ _ (sort tags) (<[c := Store.Counter []]> σ2)).
    2:{ apply readTags_run. by apply insert_fresh_preserves. }
    rewrite (bind_run _ _ _ tt σ4).
    2:{ rewrite (counting_loop_run _ _ []) by apply lookup_insert_eq.
        unfold σ4. by rewrite insert_insert_eq. }
    rewrite (bind_run _ _ _ counter σ4).
    2:{ apply readProps_run. apply lookup_insert_eq. }
    done.
  - unfold σ5. rewrite lookup_insert_eq. do 2 f_equal.
    unfold countRealTypes. simpl. by rewrite getRealTypesOfItems_map.
  - exists r. split; [apply fresh_unused|]. by apply insert_fresh_preserves.
Qed.

Lemma countRealTypes_leaves_input_witness :
  let L := literal [Obj 0 [ObjectP]; Null; Boolean true; Boolean true; Boolean false] in
  let σ : Store.store := {[ 0 := Store.Items L ]} in
  ∃ result σ',
    Store.countRealTypes (Some 0) σ = Some (result, σ')
    ∧ σ' !! 0 = Some (Store.Items L).
Proof.
  intros L σ.
  assert (σ !! 0 = Some (Store.Items L)) as Harr by (vm_compute; reflexivity).
  destruct (countRealTypes_leaves_input σ 0 L Harr)
    as (result & σ' & Hrun & Hsame & _).
  exists result, σ'. split; [exact Hrun | exact Hsame].
Defined.

(** The repository's example, run over a store. *)
Example countRealTypes_run_example :
  let L := literal [Obj 0 [ObjectP]; Null; Boolean true; Boolean true; Boolean false] in
  match Store.countRealTypes (Some 0) {[ 0 := Store.Items L ]} with
  | Some (result, σ') => (σ' !! result, σ' !! 0)
  | None => (None, None)
  end
  = (Some (Store.Entries [("boolean", 3); ("null", 1); ("object", 1)]),
     Some (Store.Items L)).
Proof. vm_compute. reflexivity. Qed.

(** An absent input allocates the empty result and writes nowhere else. *)
Lemma countRealTypes_absent_run (σ : Store.store) :
  ∃ result,
    Store.countRealTypes None σ = Some (result, <[result := Store.Entries []]> σ)
    ∧ σ !! result = None.
Proof. exists (fresh (dom σ)). split; [done | apply fresh_unused]. Qed.

(** * Further properties *)

(** ** Strict equality and the equality helper *)

Lemma SFeqb_true x y :
  SFeqb x y = true →
  x = y ∨ ∃ s1 s2, x = S754_zero s1 ∧ y = S754_zero s2.
Proof.
  unfold SFeqb.
  destruct x as [s1|s1| |s1 m1 e1], y as [s2|s2| |s2 m2 e2];
    try destruct s1; try destruct s2; simpl; try done;
    try (intros _; by left); try (intros _; right; by eauto).
  all: destruct (Z.compare_spec e1 e2) as [->| |]; try done.
  all: destruct (Pos.compare_spec m1 m2) as [->|Hlt|Hgt].
  all: try (intros _; by left).
  all: rewrite ?Pos.compare_cont_spec; simpl.
  all: try (apply Pos.compare_lt_iff in Hlt; rewrite Hlt; done).
  all: try (apply Pos.compare_gt_iff in Hgt; rewrite Hgt; done).
Qed.

Lemma SFeqb_refl x : x ≠ S754_nan → SFeqb x x = true.
Proof.
  unfold SFeqb. destruct x as [s|s| |s m e]; simpl; try done.
  - by destruct s.
  - intros _. rewrite Z.compare_refl, Pos.compare_cont_refl. by destruct s.
Qed.

Lemma SFeqb_zeros s1 s2 : SFeqb (S754_zero s1) (S754_zero s2) = true.
Proof. done. Qed.

Lemma SFeqb_nan_l y : SFeqb S754_nan y = false.
Proof. by destruct y. Qed.

Lemma SFeqb_nan_r x : SFeqb x S754_nan = false.
Proof. by destruct x. Qed.

Lemma SFeqb_sym_true x y : SFeqb x y = true → SFeqb y x = true.
Proof.
  intros Hxy. by destruct (SFeqb_true _ _ Hxy) as [->|(s1 & s2 & -> & ->)].
Qed.

Lemma SFeqb_sym x y : SFeqb x y = SFeqb y x.
Proof.
  destruct (SFeqb x y) eqn:Hxy, (SFeqb y x) eqn:Hyx; try done.
  - apply SFeqb_sym_true in Hxy. congruence.
  - apply SFeqb_sym_true in Hyx. congruence.
Qed.

Lemma SFeqb_trans x y z : SFeqb x y = true → SFeqb y z = true → SFeqb x z = true.
Proof.
  intros Hxy Hyz.
  destruct (SFeqb_true _ _ Hxy) as [->|(s1 & s2 & -> & ->)]; [done|].
  destruct (SFeqb_true _ _ Hyz) as [<-|(s3 & s4 & _ & ->)]; done.
Qed.

Lemma strictEq_sym a b : strictEq a b = strictEq b a.
Proof.
  destruct a, b; simpl; try done; try (apply bool_decide_ext; naive_solver).
  apply SFeqb_sym.
Qed.

Lemma strictEq_trans a b c :
  strictEq a b = true → strictEq b c = true → strictEq a c = true.
Proof.
  destruct a, b; simpl; try done; destruct c; simpl; try done;
    rewrite ?bool_decide_eq_true; try congruence.
  apply SFeqb_trans.
Qed.

Lemma strictEq_same_shape a b : strictEq a b = true → isArray a = isArray b.
Proof. destruct a, b; done. Qed.

Lemma strictEq_refl a : containsNaN a = false → isArray a = false → strictEq a a = true.
Proof.
  destruct a as [| |b|x|n|s|id|ad ch|ad ch es|ad ch nm]; simpl; try done;
    intros Hnan _; try by apply bool_decide_eq_true.
  apply SFeqb_refl. by intros ->.
Qed.

Lemma areEqual_Arr_other addr chain elems b :
  areEqual (Arr addr chain elems) b = true → isArray b = true.
Proof. by destruct b. Qed.

Lemma areEqual_other_Arr a addr chain elems :
  areEqual a (Arr addr chain elems) = true → isArray a = true.
Proof. by destruct a. Qed.

Lemma areEqual_sym_true a : ∀ b,
  withoutHoles a = true → withoutHoles b = true →
  areEqual a b = true → areEqual b a = true.
Proof.
  induction a as [| |bo|x|n|s|id|ad ch|addr chain ea IH|ad ch nm] using value_ind_elems;
    intros b Ha Hb Hab;
    try (rewrite areEqual_not_arrays in Hab by done;
         rewrite areEqual_not_arrays by apply andb_false_r;
         by rewrite strictEq_sym).
  pose proof (areEqual_Arr_other _ _ _ _ Hab) as Hisb.
  destruct b as [| | | | | | | |addr' chain' eb|]; try done.
  apply areEqual_arrays in Hab as [Hlen Hall]; [|done..].
  apply areEqual_arrays; [done..|]. split; [done|]. simpl in *.
  intros i y Hy.
  destruct (lookup_lt_is_Some_2 ea i) as [sa Hsa];
    [rewrite Hlen; by eapply lookup_lt_Some|].
  destruct (proj1 (withoutHoles_Arr addr chain ea) Ha i sa Hsa) as (x & -> & Hx).
  destruct (proj1 (withoutHoles_Arr addr' chain' eb) Hb i _ Hy) as (y' & [= <-] & Hy').
  rewrite (readAt_lookup _ _ _ Hsa). simpl.
  eapply Forall_lookup_1 in IH; [|done]. apply (IH x); [done..|].
  specialize (Hall i x Hsa). by rewrite (readAt_lookup _ _ _ Hy) in Hall.
Qed.

(** X6. On values of finite nesting without a hole at any depth [areEqual]
    is symmetric: the order of actual and expected result does not matter.
    It is not so on sparse arrays, where the holes of the first operand only
    are passed over: [[<hole>]] equals [[1]], and [[1]] differs from
    [[<hole>]]. *)
Theorem areEqual_symmetric (a b : value) :
  (withoutHoles a = true → withoutHoles b = true → areEqual a b = areEqual b a)
  ∧ areEqual (Arr 0 [ArrayP; ObjectP] [None]) (arrayOf 1 [Number (num 1)]) = true
  ∧ areEqual (arrayOf 1 [Number (num 1)]) (Arr 0 [ArrayP; ObjectP] [None]) = false.
Proof.
  split; [|split; reflexivity]. intros Ha Hb.
  destruct (areEqual a b) eqn:Hab, (areEqual b a) eqn:Hba; try done.
  - apply areEqual_sym_true in Hab; [congruence | done..].
  - apply areEqual_sym_true in Hba; [congruence | done..].
Qed.

Lemma areEqual_symmetric_witness :
  areEqual (arrayOf 0 [Str "a"; arrayOf 1 [Null]]) (arrayOf 2 [Str "a"; arrayOf 3 [Null]])
  = areEqual (arrayOf 2 [Str "a"; arrayOf 3 [Null]]) (arrayOf 0 [Str "a"; arrayOf 1 [Null]]).
Proof.
  apply (proj1 (areEqual_symmetric (arrayOf 0 [Str "a"; arrayOf 1 [Null]])
                  (arrayOf 2 [Str "a"; arrayOf 3 [Null]]))); reflexivity.
Defined.

(** X7. On values of finite nesting [areEqual] is transitive through a
    middle operand without a hole at any depth.  Through a sparse one it is
    not: [[undefined]] equals [[<hole>]], which equals [[1]], and
    [[undefined]] differs from [[1]]. *)
Theorem areEqual_transitive (a b c : value) :
  (withoutHoles b = true →
   areEqual a b = true → areEqual b c = true → areEqual a c = true)
  ∧ areEqual (arrayOf 0 [Undefined]) (Arr 1 [ArrayP; ObjectP] [None]) = true
  ∧ areEqual (Arr 1 [ArrayP; ObjectP] [None]) (arrayOf 2 [Number (num 1)]) = true
  ∧ areEqual (arrayOf 0 [Undefined]) (arrayOf 2 [Number (num 1)]) = false.
Proof.
  split; [|repeat split; reflexivity].
  revert b c.
  induction a as [| |bo|x|n|s|id|ad ch|addr chain ea IH|ad ch nm] using value_ind_elems;
    intros b c Hb Hab Hbc;
    try (rewrite areEqual_not_arrays in Hab by done;
         pose proof (strictEq_same_shape _ _ Hab) as Hshape; simpl in Hshape;
         rewrite areEqual_not_arrays in Hbc by (by rewrite <- Hshape);
         rewrite areEqual_not_arrays by done;
         by eapply strictEq_trans).
  pose proof (areEqual_Arr_other _ _ _ _ Hab) as Hisb.
  destruct b as [| | | | | | | |addr' chain' eb|]; try done.
  pose proof (areEqual_Arr_other _ _ _ _ Hbc) as Hisc.
  apply areEqual_arrays in Hab as [Hlen1 Hall1]; [|done..].
  apply areEqual_arrays in Hbc as [Hlen2 Hall2]; [|done..].
  apply areEqual_arrays; [done..|]. simpl in *. split; [congruence|].
  intros i x Hx.
  destruct (lookup_lt_is_Some_2 eb i) as [sb Hsb];
    [rewrite <- Hlen1; by eapply lookup_lt_Some|].
  destruct (proj1 (withoutHoles_Arr addr' chain' eb) Hb i sb Hsb) as (y & -> & Hy).
  eapply Forall_lookup_1 in IH; [|done].
  apply (IH x eq_refl y); [done | | by apply Hall2].
  specialize (Hall1 i x Hx). by rewrite (readAt_lookup _ _ _ Hsb) in Hall1.
Qed.

Lemma areEqual_transitive_witness :
  areEqual (arrayOf 0 [Number (S754_zero false); arrayOf 1 [Str "a"]])
           (arrayOf 4 [Number (S754_zero false); arrayOf 5 [Str "a"]]) = true.
Proof.
  apply (proj1 (areEqual_transitive _
                  (arrayOf 2 [Number (S754_zero true); arrayOf 3 [Str "a"]]) _));
    reflexivity.
Defined.

Lemma existsb_false {A} (f : A → bool) (l : list A) :
  existsb f l = false ↔ Forall (λ x, f x = false) l.
Proof.
  induction l as [|x l IH]; simpl.
  - split; [constructor | done].
  - rewrite orb_false_iff, IH, Forall_cons. done.
Qed.

Lemma areEqual_refl_NaN (a : value) :
  areEqual a a = true ↔ containsNaN a = false.
Proof.
  induction a as [| |bo|x|n|s|id|ad ch|addr chain ea IH|ad ch nm] using value_ind_elems;
    try (rewrite areEqual_not_arrays by done; simpl;
         split; [done | intros _; by apply bool_decide_eq_true]);
    try done.
  - rewrite areEqual_not_arrays by done. simpl. split.
    + intros Hx. destruct x; try done.
    + intros Hx. apply SFeqb_refl. by intros ->.
  - rewrite areEqual_arrays by done. simpl. rewrite existsb_false, Forall_lookup.
    rewrite Forall_lookup in IH. split.
    + intros [_ Hall] i [x|] Hi; [|done].
      apply (IH i _ Hi x eq_refl). specialize (Hall i x Hi).
      by rewrite (readAt_lookup _ _ _ Hi) in Hall.
    + intros Hall. split; [done|]. intros i x Hi.
      rewrite (readAt_lookup _ _ _ Hi). simpl.
      apply (IH i _ Hi x eq_refl). by apply (Hall i _ Hi).
Qed.

Lemma Graph_areEqual_loop h p q ra rb :
  h !! p = Some (Some (Graph.Ref p) :: ra) →
  h !! q = Some (Some (Graph.Ref q) :: rb) →
  length ra = length rb →
  ∀ fuel, Graph.areEqual fuel h (Graph.Ref p) (Graph.Ref q) = None.
Proof.
  intros Hp Hq Hlen fuel. induction fuel as [|fuel IH]; [done|].
  simpl. rewrite Hp, Hq. simpl. rewrite bool_decide_eq_true_2 by (by rewrite Hlen).
  unfold Graph.readAt. simpl. by rewrite IH.
Qed.

Lemma Graph_reads_loop h p rest v :
  h !! p = Some (Some (Graph.Ref p) :: rest) → ¬ Graph.reads h (Graph.Ref p) v.
Proof.
  intros Hp.
  induction v as [| |bo|x|n|s|id|ad ch|addr chain ea IH|ad ch nm] using value_ind_elems;
    inversion 1 as [|? ? slots ? Hcell Hall]; simplify_eq.
  inversion Hall as [|? slot ? ? Hhead _]; simplify_eq.
  inversion Hhead as [? x Hx|]; simplify_eq.
  apply Forall_cons in IH as [IH _]. by apply (IH x).
Qed.

Lemma Graph_everyFrom_mono (f g : Graph.node → nat → option bool) l :
  (∀ x i r, f x i = Some r → g x i = Some r) →
  ∀ i r, Graph.everyFrom f i l = Some r → Graph.everyFrom g i l = Some r.
Proof.
  intros Hfg. induction l as [|[x|] l IH]; intros i r; simpl; [done| |apply IH].
  destruct (f x i) as [[]|] eqn:Hf; [|intros [= <-]|done].
  - rewrite (Hfg _ _ _ Hf). apply IH.
  - by rewrite (Hfg _ _ _ Hf).
Qed.

Lemma Graph_areEqual_mono h fuel : ∀ fuel' a b r,
  Graph.areEqual fuel h a b = Some r → fuel ≤ fuel' →
  Graph.areEqual fuel' h a b = Some r.
Proof.
  induction fuel as [|fuel IH]; intros [|fuel'] a b r Hrun Hle; try done; [lia|].
  simpl in *. destruct (Graph.slotsOf h a) as [ea|]; [|done].
  destruct (Graph.slotsOf h b) as [eb|]; [|done].
  case_bool_decide; [|done].
  eapply Graph_everyFrom_mono; [|done].
  intros x i r' Hx. apply IH; [done | lia].
Qed.

(** X8. On a value of finite nesting (no array holds itself) [areEqual]
    holds of the value and itself exactly when the value holds no NaN at any
    depth; holes do not matter; and on an array of a heap that stands for
    such a value the call returns just that.  On an array that holds itself
    it is otherwise: [a = []; a.push(a)] holds no NaN, and [areEqual(a, a)]
    does not return, whatever depth of calls is allowed. *)
Theorem areEqual_reflexive_iff (a : value) :
  (areEqual a a = true ↔ containsNaN a = false)
  ∧ (∀ h n fuel, Graph.reads h n a → depth a < fuel →
       Graph.areEqual fuel h n n = Some (negb (containsNaN a)))
  ∧ (∀ fuel, Graph.areEqual fuel Graph.selfHeap (Graph.Ref 0) (Graph.Ref 0) = None).
Proof.
  split; [apply areEqual_refl_NaN|]. split.
  - intros h n fuel Hn Hfuel.
    rewrite (Graph_areEqual_reads h a a n n fuel Hn Hn Hfuel). f_equal.
    pose proof (areEqual_refl_NaN a) as Hiff.
    destruct (areEqual a a), (containsNaN a); try done.
    + by pose proof (proj1 Hiff eq_refl).
    + by pose proof (proj2 Hiff eq_refl).
  - apply (Graph_areEqual_loop Graph.selfHeap 0 0 [] []); by vm_compute.
Qed.

Lemma areEqual_reflexive_iff_witness :
  Graph.areEqual 3 Graph.nestedHeap (Graph.Ref 0) (Graph.Ref 0) = Some true.
Proof.
  apply (proj1 (proj2 (areEqual_reflexive_iff
                         (arrayOf 0 [Number (num 1); arrayOf 1 [Number (num 2)]])))).
  - eapply Graph.reads_ref; [by vm_compute|].
    repeat constructor. eapply Graph.reads_ref; [by vm_compute|].
    repeat constructor.
  - simpl. lia.
Defined.

(** X20. Arrays that hold themselves.  When each of two arrays of equal
    length holds itself at its first position, [areEqual] on them does not
    return, whatever depth of calls is allowed, and no value of finite
    nesting stands for such an array.  A result that is reached within some
    depth is the result within every greater depth.  A call on arrays that
    hold themselves returns when [every] stops before it reaches them:
    with [a = [1]; a.push(a)] and [b = [2]; b.push(b)], [areEqual(a, b)]
    is false. *)
Theorem Graph_areEqual_cyclic (h : Graph.heap) :
  (∀ p q ra rb,
     h !! p = Some (Some (Graph.Ref p) :: ra) →
     h !! q = Some (Some (Graph.Ref q) :: rb) →
     length ra = length rb →
     ∀ fuel, Graph.areEqual fuel h (Graph.Ref p) (Graph.Ref q) = None)
  ∧ (∀ p rest v,
       h !! p = Some (Some (Graph.Ref p) :: rest) → ¬ Graph.reads h (Graph.Ref p) v)
  ∧ (∀ fuel fuel' a b r,
       Graph.areEqual fuel h a b = Some r → fuel ≤ fuel' →
       Graph.areEqual fuel' h a b = Some r)
  ∧ Graph.areEqual 2 Graph.twoLoops (Graph.Ref 0) (Graph.Ref 1) = Some false.
Proof.
  split; [apply Graph_areEqual_loop|]. split; [apply Graph_reads_loop|].
  split; [|by vm_compute].
  intros fuel fuel' a b r. apply Graph_areEqual_mono.
Qed.

Lemma Graph_areEqual_cyclic_witness :
  Graph.areEqual 1000 Graph.selfHeap (Graph.Ref 0) (Graph.Ref 0) = None
  ∧ Graph.areEqual 5 Graph.nestedHeap (Graph.Ref 0) (Graph.Ref 2) = Some true.
Proof.
  split.
  - apply (proj1 (Graph_areEqual_cyclic Graph.selfHeap) 0 0 [] []); by vm_compute.
  - apply (proj1 (proj2 (proj2 (Graph_areEqual_cyclic Graph.nestedHeap)))
             3 5 (Graph.Ref 0) (Graph.Ref 2) true); [by vm_compute | lia].
Defined.

Lemma everyFrom_ext {A} (f g : A → nat → bool) (i : nat) (l : list (option A)) :
  Forall (λ slot, ∀ x j, slot = Some x → f x j = g x j) l →
  everyFrom f i l = everyFrom g i l.
Proof.
  intros Hl. revert i. induction Hl as [|[x|] l Hx Hl IH]; intros i; simpl; [done| |done].
  by rewrite (Hx x i eq_refl), IH.
Qed.

(** X9. On an array whose elements are no arrays, the template's one-level
    [areEqual] and the recursive one agree, whatever the other operand is;
    so they do on every operand that is no array. *)
Theorem areEqual_versions_agree_flat (a b : value) :
  Forall (λ slot, ∀ element, slot = Some element → isArray element = false)
         (elemsOf a) →
  IndexJs.areEqual a b = areEqual a b.
Proof.
  intros Hflat. rewrite areEqual_unfold. unfold IndexJs.areEqual, every.
  destruct (isArray a && isArray b); [|done]. f_equal.
  apply everyFrom_ext. eapply Forall_impl; [done|].
  intros slot Hslot element j ->. simpl in *.
  by rewrite areEqual_not_arrays by (by rewrite (Hslot element eq_refl)).
Qed.

Lemma areEqual_versions_agree_flat_witness :
  IndexJs.areEqual (arrayOf 0 [Str "boolean"; Str "number"])
                   (arrayOf 1 [Str "boolean"; Str "number"])
  = areEqual (arrayOf 0 [Str "boolean"; Str "number"])
             (arrayOf 1 [Str "boolean"; Str "number"]).
Proof.
  apply areEqual_versions_agree_flat.
  repeat (constructor; [by intros ? [= <-]|]). constructor.
Defined.

(** ** Classification *)

(** X1. Both functions return an array of the length of their argument.
    The loop of [getRealTypesOfItems] leaves no hole: at each position it
    puts the real type of what a read of that position gives, "undefined"
    for a hole.  The [map] of [getTypesOfItems] puts the coarse tag of an
    element at its position and leaves a hole where the argument has
    one. *)
Theorem tags_by_position (arr : list (option value)) :
  length (getTypesOfItems arr) = length arr
  ∧ length (getRealTypesOfItems arr) = length arr
  ∧ (∀ i slot, arr !! i = Some slot →
       getRealTypesOfItems arr !! i = Some (getRealType (readSlot slot)))
  ∧ (∀ i, arr !! i = Some None → getRealTypesOfItems arr !! i = Some "undefined")
  ∧ (∀ i x, arr !! i = Some (Some x) →
       getTypesOfItems arr !! i = Some (Some (getType x)))
  ∧ (∀ i, arr !! i = Some None → getTypesOfItems arr !! i = Some None).
Proof.
  rewrite getRealTypesOfItems_map. unfold getTypesOfItems, iterated.
  rewrite !length_fmap. repeat split.
  - intros i slot Hi. by rewrite !list_lookup_fmap, Hi.
  - intros i Hi. by rewrite !list_lookup_fmap, Hi.
  - intros i x Hi. by rewrite list_lookup_fmap, Hi.
  - intros i Hi. by rewrite list_lookup_fmap, Hi.
Qed.

Lemma tags_by_position_witness :
  getRealTypesOfItems [Some Null; None] !! 1 = Some "undefined"
  ∧ getTypesOfItems [Some Null; None] !! 1 = Some None.
Proof.
  split.
  - apply (proj1 (proj2 (proj2 (proj2 (tags_by_position [Some Null; None]))))).
    reflexivity.
  - apply (proj2 (proj2 (proj2 (proj2 (proj2 (tags_by_position [Some Null; None])))))).
    reflexivity.
Defined.

(** X2. The template's loop and the TypeScript [map] compute the same
    tags exactly on the arrays without holes, and on these the two versions
    of [allItemsHaveTheSameType] agree.  On [[undefined, <hole>]] they do
    not: the template answers true, the TypeScript version false. *)
Theorem template_versions_agree (arr : list (option value)) :
  (strings (IndexJs.getTypesOfItems arr) = getTypesOfItems arr ↔ noHole arr = true)
  ∧ (noHole arr = true →
     Template.allItemsHaveTheSameType arr = allItemsHaveTheSameType arr)
  ∧ Template.allItemsHaveTheSameType [Some Undefined; None] = true
  ∧ allItemsHaveTheSameType [Some Undefined; None] = false.
Proof.
  assert (noHole arr = true →
          strings (IndexJs.getTypesOfItems arr) = getTypesOfItems arr) as Heq.
  { intros Hdense. rewrite IndexJs_getTypesOfItems. apply noHole_literal in Hdense.
    rewrite Hdense at 2. by rewrite getTypesOfItems_literal. }
  split; [split; [|done]|split; [|split; reflexivity]].
  - intros Htags. unfold noHole. apply forallb_forall.
    intros slot Hslot%list_elem_of_In. apply bool_decide_eq_true.
    assert ((getType <$> slot) ∈ getTypesOfItems arr) as Hin
      by (by apply (list_elem_of_fmap_2 (λ slot : option value, getType <$> slot))).
    rewrite <- Htags in Hin. unfold strings in Hin.
    apply list_elem_of_fmap in Hin as (t & Ht & _). by destruct slot.
  - intros Hdense.
    unfold Template.allItemsHaveTheSameType, allItemsHaveTheSameType.
    by rewrite (Heq Hdense).
Qed.

Lemma template_versions_agree_witness :
  Template.allItemsHaveTheSameType (literal [Str "11"; Obj 0 [StringP; ObjectP]])
  = allItemsHaveTheSameType (literal [Str "11"; Obj 0 [StringP; ObjectP]]).
Proof.
  apply (proj1 (proj2 (template_versions_agree
                         (literal [Str "11"; Obj 0 [StringP; ObjectP]])))).
  reflexivity.
Defined.

Lemma getType_tag v : getType v ∈ typeTags.
Proof. destruct v; unfold typeTags; set_solver. Qed.

(** X3. The tags are closed sets: [getType] yields exactly the eight
    [typeof] tags, [getRealType] exactly these and the twelve refined ones,
    and each of them is the tag of some value. *)
Theorem tag_ranges (t : string) :
  (t ∈ typeTags ↔ ∃ v, getType v = t)
  ∧ (t ∈ realTypeTags ↔ ∃ v, getRealType v = t)
  ∧ length realTypeTags = 20
  ∧ NoDup realTypeTags.
Proof.
  split; [|split; [|split]].
  - split; [|intros [v <-]; apply getType_tag].
    unfold typeTags. rewrite !elem_of_cons, elem_of_nil.
    intros [->|[->|[->|[->|[->|[->|[->|[->|[]]]]]]]]].
    + by exists Undefined.
    + by exists Null.
    + by exists (Boolean true).
    + by exists (Number NaN).
    + by exists (BigInt 0).
    + by exists (Str "").
    + by exists (Symbol 0).
    + by exists (Fun 0 [] "").
  - split; [|intros [v <-]; apply getRealType_tag].
    intros Ht.
    assert (t ∈ getRealTypesOfItems knownTypes) as Hknown.
    { assert (Forall (λ t, t ∈ getRealTypesOfItems knownTypes) realTypeTags) as Hall
        by (apply (bool_decide_unpack _); by vm_compute).
      by eapply Forall_forall in Hall. }
    rewrite getRealTypesOfItems_map in Hknown.
    apply list_elem_of_fmap in Hknown as (v & -> & _). by exists v.
  - done.
  - apply (bool_decide_unpack _). by vm_compute.
Qed.

(** X4. The real type refines the coarse one: either they are equal, or
    the real type is a sentinel of the numbers, "null" or "array" for an
    object, the generator tag for a function, or one of the seven class
    tags for an object or a function. *)
Theorem getRealType_refines_getType (v : value) :
  getRealType v = getType v
  ∨ (getRealType v ∈ ["NaN"; "Infinity"] ∧ getType v = "number")
  ∨ (getRealType v ∈ ["null"; "array"] ∧ getType v = "object")
  ∨ (getRealType v = "generator function" ∧ getType v = "function")
  ∨ (getRealType v ∈ ["date"; "regexp"; "set"; "map"; "error"; "buffer"; "blob"]
     ∧ getType v ∈ ["object"; "function"]).
Proof.
  destruct v as [| |b|x|n|s|id|addr chain|addr chain elems|addr chain name];
    try (by left).
  - right. right. left. split; [|done]. set_solver.
  - destruct x as [s|[]| |s m e]; try (by left); right; left; (split; [|done]);
      set_solver.
  - unfold getRealType, getType. simpl.
    repeat (case_bool_decide;
            [do 4 right; split; [set_solver | set_solver]|]).
    by left.
  - right. right. left. split; [|done]. set_solver.
  - unfold getRealType, getType. simpl.
    repeat (case_bool_decide;
            [do 4 right; split; [set_solver | set_solver]|]).
    case_bool_decide; [right; right; right; by left | by left].
Qed.

Lemma getRealType_Obj addr chain :
  getRealType (Obj addr chain)
  ∈ ["date"; "regexp"; "set"; "map"; "error"; "buffer"; "blob"; "object"].
Proof.
  unfold getRealType. simpl.
  repeat (case_bool_decide; [by apply (bool_decide_unpack _)|]).
  by apply (bool_decide_unpack _).
Qed.

Lemma getRealType_Fun addr chain name :
  getRealType (Fun addr chain name)
  ∈ ["date"; "regexp"; "set"; "map"; "error"; "buffer"; "blob";
     "generator function"; "function"].
Proof.
  unfold getRealType. simpl.
  repeat (case_bool_decide; [by apply (bool_decide_unpack _)|]).
  by apply (bool_decide_unpack _).
Qed.

(** X5. The sentinel tags name exactly their values: "null" only [null],
    "NaN" only NaN, "Infinity" only positive infinity, "undefined" only
    [undefined], "array" exactly the arrays; and "number" exactly the numbers
    that are neither NaN nor positive infinity. *)
Theorem getRealType_sentinels (v : value) :
  (getRealType v = "null" ↔ v = Null)
  ∧ (getRealType v = "NaN" ↔ v = Number NaN)
  ∧ (getRealType v = "Infinity" ↔ v = Number Infinity)
  ∧ (getRealType v = "undefined" ↔ v = Undefined)
  ∧ (getRealType v = "array" ↔ isArray v = true)
  ∧ (getRealType v = "number" ↔ ∃ x, v = Number x ∧ x ≠ NaN ∧ x ≠ Infinity).
Proof.
  destruct v as [| |b|x|n|s|id|addr chain|addr chain elems|addr chain name].
  1-3, 5-7, 9: repeat split; try done; by intros (? & ? & _).
  - destruct x as [s|[]| |s m e]; repeat split; try done;
      try (by intros (? & ? & _)); try (by intros (? & [= <-] & ? & ?));
      intros _; eexists; (split; [done|]); done.
  - pose proof (getRealType_Obj addr chain) as Htag.
    repeat split; try done; try (by intros (? & ? & _));
      intros Heq; rewrite Heq in Htag; exfalso; revert Htag;
      apply (bool_decide_unpack _); by vm_compute.
  - pose proof (getRealType_Fun addr chain name) as Htag.
    repeat split; try done; try (by intros (? & ? & _));
      intros Heq; rewrite Heq in Htag; exfalso; revert Htag;
      apply (bool_decide_unpack _); by vm_compute.
Qed.

(** X10. For a function that is an instance of none of the seven classes
    the tag is decided by the name alone: "generator function" when the name
    is GeneratorFunction, whatever the function is, and "function"
    otherwise. *)
Theorem getRealType_of_function (addr : nat) (chain : list proto) (name : string) :
  Forall (λ p, p ∉ chain) classPrototypes →
  getRealType (Fun addr chain name)
  = if bool_decide (name = "GeneratorFunction") then "generator function"
    else "function".
Proof.
  intros Hchain. unfold classPrototypes in Hchain.
  repeat (apply Forall_cons in Hchain as [? Hchain]).
  unfold getRealType. simpl.
  repeat (rewrite bool_decide_eq_false_2 by done). done.
Qed.

Lemma getRealType_of_function_witness :
  getRealType (Fun 0 [FunctionP; ObjectP] "GeneratorFunction") = "generator function"
  ∧ getRealType (Fun 1 [OtherP 1; FunctionP; ObjectP] "counter") = "function".
Proof.
  split.
  - apply (getRealType_of_function 0 [FunctionP; ObjectP] "GeneratorFunction").
    apply (bool_decide_unpack _). by vm_compute.
  - apply (getRealType_of_function 1 [OtherP 1; FunctionP; ObjectP] "counter").
    apply (bool_decide_unpack _). by vm_compute.
Defined.

(** ** List analyzers *)

Lemma newSet_tags (l : list value) :
  newSet (strings (getRealType <$> l)) ⊆ newSet (strings realTypeTags).
Proof.
  intros t. unfold newSet, strings.
  rewrite !elem_of_list_to_set, !list_elem_of_fmap.
  intros (s & -> & (v & -> & _)%list_elem_of_fmap).
  exists (getRealType v). split; [done | apply getRealType_tag].
Qed.

Lemma everyItem_size (arr : list (option value)) :
  everyItemHasAUniqueRealType arr = true
  ↔ size (newSet (strings (getRealType <$> iterated arr))) = length arr.
Proof.
  unfold everyItemHasAUniqueRealType. rewrite getRealTypesOfItems_map.
  destruct arr as [|x arr]; [done|].
  rewrite bool_decide_eq_true_2 by (simpl; lia). apply bool_decide_eq_true.
Qed.

Lemma noHole_elem_of (arr : list (option value)) :
  noHole arr = true ↔ ∀ slot, slot ∈ arr → is_Some slot.
Proof.
  unfold noHole. rewrite forallb_forall. split.
  - intros H slot Hslot. by apply (bool_decide_eq_true _), H, list_elem_of_In.
  - intros H slot Hslot%list_elem_of_In. by apply bool_decide_eq_true, H.
Qed.

Lemma allItemsHaveTheSameType_cases (arr : list (option value)) :
  allItemsHaveTheSameType arr = true
  ↔ (noHole arr = true ∧ ∃ t, ∀ x, x ∈ iterated arr → getType x = t)
    ∨ (∀ slot, slot ∈ arr → slot = None).
Proof.
  destruct (decide (arr = [])) as [->|Hne].
  { split; [|done]. intros _. right. by intros slot ?%elem_of_nil. }
  rewrite (allItemsHaveTheSameType_set _ Hne). unfold getTypesOfItems, iterated.
  split.
  - intros [[t|] [_ Ht]%newSet_singleton].
    + left. split.
      * apply noHole_elem_of. intros slot Hslot.
        specialize (Ht (getType <$> slot) (list_elem_of_fmap_2 _ _ _ Hslot)).
        by destruct slot.
      * exists t. intros x (slot & -> & Hslot)%list_elem_of_fmap.
        specialize (Ht (getType <$> slot) (list_elem_of_fmap_2 _ _ _ Hslot)).
        destruct slot; by simplify_eq/=.
    + right. intros slot Hslot.
      specialize (Ht (getType <$> slot) (list_elem_of_fmap_2 _ _ _ Hslot)).
      by destruct slot.
  - intros [(Hdense & t & Ht)|Hholes].
    + exists (Some t). apply newSet_singleton. split; [by destruct arr|].
      intros ? (slot & -> & Hslot)%list_elem_of_fmap.
      destruct (proj1 (noHole_elem_of arr) Hdense slot Hslot) as [x ->].
      simpl. f_equal. apply Ht. by apply (list_elem_of_fmap_2 readSlot _ (Some x)).
    + exists None. apply newSet_singleton. split; [by destruct arr|].
      intros ? (slot & -> & Hslot)%list_elem_of_fmap. by rewrite (Hholes slot Hslot).
Qed.

(** X19. What [allItemsHaveTheSameType] answers on every array: it holds
    exactly when the array has no hole and all its elements have one coarse
    tag, or when the array has nothing but holes (the empty array is both).
    So on an array without holes it holds iff all elements have one coarse
    tag, and on an array that has a hole and an element it is false,
    whatever the element is. *)
Theorem allItemsHaveTheSameType_exact (arr : list (option value)) :
  (allItemsHaveTheSameType arr = true
   ↔ (noHole arr = true ∧ ∃ t, ∀ x, x ∈ iterated arr → getType x = t)
     ∨ (∀ slot, slot ∈ arr → slot = None))
  ∧ (noHole arr = true →
     (allItemsHaveTheSameType arr = true
      ↔ ∃ t, ∀ x, x ∈ iterated arr → getType x = t))
  ∧ (∀ x, Some x ∈ arr → None ∈ arr → allItemsHaveTheSameType arr = false).
Proof.
  split; [apply allItemsHaveTheSameType_cases|]. split.
  - intros Hdense. rewrite allItemsHaveTheSameType_cases. split.
    + intros [[_ Htag]|Hholes]; [done|].
      exists "". intros x (slot & -> & Hslot)%list_elem_of_fmap.
      destruct (proj1 (noHole_elem_of arr) Hdense slot Hslot) as [y ->].
      by specialize (Hholes _ Hslot).
    + intros Htag. by left.
  - intros x Hx Hhole. apply not_true_iff_false.
    intros [[Hdense _]|Hholes]%allItemsHaveTheSameType_cases.
    + by destruct (proj1 (noHole_elem_of arr) Hdense None Hhole).
    + by specialize (Hholes _ Hx).
Qed.

Lemma allItemsHaveTheSameType_exact_witness :
  allItemsHaveTheSameType (literal [Str "11"; Str "12"]) = true
  ∧ allItemsHaveTheSameType [Some (Number (num 1)); None; Some (Number (num 3))] = false.
Proof.
  split.
  - apply (proj2 (proj1 (proj2 (allItemsHaveTheSameType_exact
                                   (literal [Str "11"; Str "12"]))) eq_refl)).
    exists "string". intros x Hx.
    repeat (apply elem_of_cons in Hx as [->|Hx]; [reflexivity|]).
    by apply elem_of_nil in Hx.
  - apply (proj2 (proj2 (allItemsHaveTheSameType_exact
                           [Some (Number (num 1)); None; Some (Number (num 3))]))
             (Number (num 1))).
    + apply list_elem_of_here.
    + apply list_elem_of_further, list_elem_of_here.
Defined.

(** X11. Neither analyzer looks at the order of the positions: on two
    arrays that are permutations of each other, holes included, they give
    the same answer. *)
Theorem analyzers_permutation (arr arr' : list (option value)) :
  arr ≡ₚ arr' →
  allItemsHaveTheSameType arr = allItemsHaveTheSameType arr'
  ∧ everyItemHasAUniqueRealType arr = everyItemHasAUniqueRealType arr'.
Proof.
  intros Hperm.
  unfold allItemsHaveTheSameType, everyItemHasAUniqueRealType, newSet.
  rewrite !getRealTypesOfItems_map. unfold getTypesOfItems, strings, iterated.
  rewrite (Permutation_length Hperm).
  assert (list_to_set ((λ slot : option value, getType <$> slot) <$> arr)
          =@{gset (option string)}
          list_to_set ((λ slot : option value, getType <$> slot) <$> arr'))
    as -> by (by rewrite Hperm).
  assert (list_to_set (Some <$> (getRealType <$> (readSlot <$> arr)))
          =@{gset (option string)}
          list_to_set (Some <$> (getRealType <$> (readSlot <$> arr'))))
    as -> by (by rewrite Hperm).
  done.
Qed.

Lemma analyzers_permutation_witness :
  allItemsHaveTheSameType (literal [Number (num 1); Str "a"; Number NaN])
  = allItemsHaveTheSameType (literal [Str "a"; Number (num 1); Number NaN]).
Proof.
  apply (analyzers_permutation (literal [Number (num 1); Str "a"; Number NaN])
           (literal [Str "a"; Number (num 1); Number NaN])).
  apply perm_swap.
Defined.

(** X12. An array passes [everyItemHasAUniqueRealType] only if it has at
    most twenty elements, one for each real type there is; the sample of the
    test script has exactly twenty. *)
Theorem everyItemHasAUniqueRealType_bound (arr : list (option value)) :
  everyItemHasAUniqueRealType arr = true → length arr ≤ 20.
Proof.
  intros Hevery%everyItem_size. rewrite <- Hevery.
  etrans; [|apply (size_newSet_le (strings realTypeTags))].
  apply subseteq_size, newSet_tags.
Qed.

Lemma everyItemHasAUniqueRealType_bound_witness : length knownTypes ≤ 20.
Proof. apply everyItemHasAUniqueRealType_bound. reflexivity. Defined.

(** ** countRealTypes and the analyzers *)

Lemma countRealTypes_get (L : list (option value)) (t : string) :
  default 0 (propGet (countRealTypes (ArgArray L)) t)
  = length (filter (λ v, getRealType v = t) (iterated L)).
Proof.
  rewrite countRealTypes_counter, counting_get. simpl.
  rewrite (Permutation_length
             (filter_Permutation _ _ _ (sort_permutation (getRealType <$> iterated L)))).
  unfold iterated. induction L as [|v L IH]; [done|].
  rewrite !fmap_cons, !filter_cons.
  destruct (decide (getRealType (readSlot v) = t)); simpl; lia.
Qed.

Lemma countRealTypes_keys (L : list (option value)) (t : string) :
  t ∈ (countRealTypes (ArgArray L)).*1 ↔ t ∈ getRealType <$> iterated L.
Proof.
  split.
  - rewrite countRealTypes_counter.
    destruct (counting_keys (sort (getRealType <$> iterated L)) []) as (new & -> & Hsub).
    simpl. intros Ht. eapply elem_of_sublist in Ht; [|done].
    by rewrite sort_permutation in Ht.
  - intros (v & -> & Hv)%list_elem_of_fmap.
    apply dec_stable. intros Hnone%propGet_None.
    pose proof (countRealTypes_get L (getRealType v)) as Hget.
    rewrite Hnone in Hget. simpl in Hget. symmetry in Hget.
    apply length_zero_iff_nil in Hget.
    eapply (filter_nil_not_elem_of _ _ v); [exact Hget | done | done].
Qed.

Lemma countRealTypes_keys_NoDup (L : list (option value)) :
  NoDup (countRealTypes (ArgArray L)).*1.
Proof. rewrite countRealTypes_counter. apply counting_NoDup. constructor. Qed.

Lemma countRealTypes_size (L : list (option value)) :
  length (countRealTypes (ArgArray L))
  = size (newSet (strings (getRealType <$> iterated L))).
Proof.
  rewrite <- (length_fmap fst).
  rewrite <- (proj2 (size_newSet_strings _) (countRealTypes_keys_NoDup L)).
  unfold newSet, strings. f_equal. apply set_eq. intros t.
  rewrite !elem_of_list_to_set, !list_elem_of_fmap.
  split; intros (s & -> & Hs); exists s; (split; [done|]);
    by apply countRealTypes_keys.
Qed.

(** X13. [countRealTypes] has one entry for each real type that occurs:
    as many entries as the set of the real-type tags has members, so at most
    as many as the array has elements and at most twenty, and at least one
    when the array is not empty. *)
Theorem countRealTypes_length (L : list (option value)) :
  length (countRealTypes (ArgArray L))
  = size (newSet (strings (getRealTypesOfItems L)))
  ∧ length (countRealTypes (ArgArray L)) ≤ length L
  ∧ length (countRealTypes (ArgArray L)) ≤ 20
  ∧ (L ≠ [] → countRealTypes (ArgArray L) ≠ []).
Proof.
  rewrite getRealTypesOfItems_map, countRealTypes_size. split; [done|].
  split; [|split].
  - etrans; [apply size_newSet_le|].
    unfold strings, iterated. by rewrite !length_fmap.
  - etrans; [|apply (size_newSet_le (strings realTypeTags))].
    apply subseteq_size, newSet_tags.
  - intros Hne Hsize. destruct L as [|v L]; [done|].
    assert (getRealType (readSlot v) ∈ (countRealTypes (ArgArray (v :: L))).*1) as Hin
      by (apply countRealTypes_keys; unfold iterated; rewrite !fmap_cons;
          apply list_elem_of_here).
    rewrite Hsize in Hin. by apply elem_of_nil in Hin.
Qed.

Lemma countRealTypes_length_witness :
  countRealTypes (ArgArray (literal [Null; Null])) ≠ [].
Proof.
  apply (proj2 (proj2 (proj2 (countRealTypes_length (literal [Null; Null]))))).
  discriminate.
Defined.

Lemma counts_all_one (r : list (string * nat)) :
  Forall (λ p, 1 ≤ p.2) r →
  sum_list_with snd r = length r ↔ Forall (λ p, p.2 = 1) r.
Proof.
  intros Hpos. split.
  - intros Hsum. induction Hpos as [|p r Hp Hpos IH]; [constructor|].
    simpl in Hsum.
    assert (length r ≤ sum_list_with snd r) as Hle.
    { clear -Hpos. induction Hpos as [|q r Hq _ IH]; simpl; lia. }
    constructor; [lia|]. apply IH. lia.
  - intros Hone. clear Hpos. induction Hone as [|p r Hp _ IH]; simpl; [done|].
    rewrite IH, Hp. done.
Qed.

(** X14. [everyItemHasAUniqueRealType] holds exactly when [countRealTypes]
    has as many entries as the array has elements, that is when every count
    is 1. *)
Theorem everyItemHasAUniqueRealType_counts (L : list (option value)) :
  (everyItemHasAUniqueRealType L = true
   ↔ length (countRealTypes (ArgArray L)) = length L)
  ∧ (everyItemHasAUniqueRealType L = true
     ↔ Forall (λ p, p.2 = 1) (countRealTypes (ArgArray L))).
Proof.
  pose proof (countRealTypes_size L) as Hlen.
  assert (everyItemHasAUniqueRealType L = true
          ↔ length (countRealTypes (ArgArray L)) = length L) as Hiff
    by (by rewrite everyItem_size, Hlen).
  split; [done|]. rewrite Hiff.
  assert (sum_list_with snd (countRealTypes (ArgArray L)) = length L) as Hsum.
  { rewrite countRealTypes_counter, counting_sum. simpl.
    rewrite (Permutation_length (sort_permutation _)).
    unfold iterated. by rewrite !length_fmap. }
  rewrite <- counts_all_one.
  - by rewrite Hsum.
  - rewrite countRealTypes_counter. apply counting_positive. constructor.
Qed.

(** X15. Counting distributes over concatenation: the count of a real type
    in [L1 ++ L2] is the sum of its counts in [L1] and in [L2], a type
    without an entry counting as 0. *)
Theorem countRealTypes_app (L1 L2 : list (option value)) (t : string) :
  default 0 (propGet (countRealTypes (ArgArray (L1 ++ L2))) t)
  = default 0 (propGet (countRealTypes (ArgArray L1)) t)
    + default 0 (propGet (countRealTypes (ArgArray L2)) t).
Proof.
  rewrite !countRealTypes_get. unfold iterated.
  by rewrite fmap_app, filter_app, length_app.
Qed.

(** X21. The functions that read their argument with [for...of] take a
    sparse array for the array in which [undefined] stands at every hole:
    [getRealTypesOfItems], [everyItemHasAUniqueRealType] and
    [countRealTypes] give on both the same result.
    [allItemsHaveTheSameType], which reads with [map], does not. *)
Theorem holes_read_as_undefined (arr : list (option value)) :
  getRealTypesOfItems arr = getRealTypesOfItems (literal (iterated arr))
  ∧ everyItemHasAUniqueRealType arr
    = everyItemHasAUniqueRealType (literal (iterated arr))
  ∧ countRealTypes (ArgArray arr) = countRealTypes (ArgArray (literal (iterated arr)))
  ∧ allItemsHaveTheSameType [Some Undefined; None] = false
  ∧ allItemsHaveTheSameType (literal (iterated [Some Undefined; None])) = true.
Proof.
  split; [|split; [|split; [|split; reflexivity]]].
  - by rewrite !getRealTypesOfItems_map, iterated_literal.
  - unfold everyItemHasAUniqueRealType.
    rewrite !getRealTypesOfItems_map, iterated_literal.
    unfold literal, iterated. by rewrite !length_fmap.
  - by rewrite !countRealTypes_counter, iterated_literal.
Qed.

(** ** The test runner *)

Lemma emit_printed ch v c : printed (emit ch v c) = printed c ++ [PrintedLine (openGroups c) ch v].
Proof. done. Qed.

Lemma emit_openGroups ch v c : openGroups (emit ch v c) = openGroups c.
Proof. done. Qed.

Lemma runCall_printed k c : printed (runCall k c) = printed c ++ linesOfCall k c.
Proof.
  unfold linesOfCall. destruct k as [name|w a e]; simpl.
  - unfold testBlock, console_group, console_groupEnd. simpl.
    by rewrite drop_app_length.
  - unfold test. destruct (areEqual a e); simpl.
    + by rewrite drop_app_length.
    + rewrite <- !app_assoc. by rewrite drop_app_length.
Qed.

Lemma runCall_lines k c :
  length (filter isFailLine (linesOfCall k c)) = (if fails k then 1 else 0)
  ∧ length (filter isOkLine (linesOfCall k c)) = (if passes k then 1 else 0)
  ∧ length (linesOfCall k c)
    = (if isTestBlock k then 1 else if passes k then 1 else 6).
Proof.
  unfold linesOfCall. destruct k as [name|w a e]; simpl.
  - unfold testBlock, console_group, console_groupEnd. simpl.
    by rewrite drop_app_length.
  - unfold test. destruct (areEqual a e); simpl.
    + rewrite drop_app_length. by vm_compute.
    + rewrite <- !app_assoc, drop_app_length. by vm_compute.
Qed.

Lemma runCall_grouping k c :
  openGroups c ≤ 1 →
  openGroups (runCall k c) ≤ 1
  ∧ Forall (λ l, indent l ≤ 1) (linesOfCall k c)
  ∧ openGroups (runCall k c) = (if isTestBlock k then 1 else openGroups c).
Proof.
  intros Hc. unfold linesOfCall. destruct k as [name|w a e]; simpl.
  - unfold testBlock, console_group, console_groupEnd. simpl.
    rewrite drop_app_length. split; [lia|]. split; [|lia].
    constructor; [simpl; lia | constructor].
  - unfold test. destruct (areEqual a e); simpl.
    + rewrite drop_app_length. split; [done|]. split; [|done].
      constructor; [done | constructor].
    + rewrite <- !app_assoc, drop_app_length. split; [done|]. split; [|done].
      repeat (constructor; [done|]). constructor.
Qed.

Lemma runScript_grows (calls : list call) : ∀ c,
  ∃ new, printed (runScript calls c) = printed c ++ new.
Proof.
  induction calls as [|k calls IH]; intros c; simpl.
  - exists []. by rewrite app_nil_r.
  - destruct (IH (runCall k c)) as [new Hnew].
    exists (linesOfCall k c ++ new).
    change (printed (runScript calls (runCall k c))
            = printed c ++ linesOfCall k c ++ new).
    by rewrite Hnew, runCall_printed, app_assoc.
Qed.

Lemma linesOfScript_cons k calls c :
  linesOfScript (k :: calls) c
  = linesOfCall k c ++ linesOfScript calls (runCall k c).
Proof.
  unfold linesOfScript.
  change (runScript (k :: calls) c) with (runScript calls (runCall k c)).
  destruct (runScript_grows calls (runCall k c)) as [new Hnew].
  rewrite Hnew, drop_app_length.
  by rewrite runCall_printed, <- app_assoc, drop_app_length.
Qed.

(** X16. The runner goes through the whole script: it never alters what
    the console already shows, and to it adds one [[OK]] line for each check
    that passes and one [[FAIL]] line for each check that fails, however
    many fail; a passed check takes one line, a failed one six, a block
    one. *)
Theorem runScript_reports (calls : list call) (c : console) :
  printed (runScript calls c) = printed c ++ linesOfScript calls c
  ∧ length (filter isOkLine (linesOfScript calls c)) = length (filter passes calls)
  ∧ length (filter isFailLine (linesOfScript calls c)) = length (filter fails calls)
  ∧ length (linesOfScript calls c)
    = length (filter isTestBlock calls) + length (filter passes calls)
      + 6 * length (filter fails calls).
Proof.
  revert c. induction calls as [|k calls IH]; intros c.
  - unfold linesOfScript. simpl. rewrite drop_all, app_nil_r. done.
  - destruct (IH (runCall k c)) as (Hprinted & Hok & Hfail & Hlen).
    destruct (runCall_lines k c) as (Hfail1 & Hok1 & Hlen1).
    rewrite linesOfScript_cons, !filter_app, !length_app, !filter_cons.
    rewrite Hok, Hfail, Hlen, Hok1, Hfail1, Hlen1.
    split.
    + change (runScript (k :: calls) c) with (runScript calls (runCall k c)).
      by rewrite Hprinted, runCall_printed, app_assoc.
    + destruct k as [name|w a e]; simpl; [repeat split; lia|].
      destruct (areEqual a e); simpl; repeat split; lia.
Qed.

Lemma runScript_no_block (calls : list call) : ∀ c,
  Forall (λ k, ¬ isTestBlock k) calls →
  openGroups (runScript calls c) = openGroups c.
Proof.
  induction calls as [|k calls IH]; intros c Hcalls; [done|].
  apply Forall_cons in Hcalls as [Hk Hcalls].
  change (runScript (k :: calls) c) with (runScript calls (runCall k c)).
  rewrite IH by done. destruct k as [name|w a e]; [by destruct Hk|].
  simpl. unfold test. by destruct (areEqual a e).
Qed.

(** X17. Groups never nest: run from a console with at most one open
    group, a script leaves at most one group open, exactly one when it holds
    a [testBlock], and prints every line at indentation 0 or 1. *)
Theorem runScript_grouping (calls : list call) (c : console) :
  openGroups c ≤ 1 →
  openGroups (runScript calls c) ≤ 1
  ∧ Forall (λ l, indent l ≤ 1) (linesOfScript calls c)
  ∧ (Exists isTestBlock calls → openGroups (runScript calls c) = 1).
Proof.
  revert c. induction calls as [|k calls IH]; intros c Hc.
  - unfold linesOfScript. simpl. rewrite drop_all.
    split; [done|]. split; [constructor|]. by intros ?%Exists_nil.
  - destruct (runCall_grouping k c Hc) as (Hk & Hlines & Hopen).
    destruct (IH (runCall k c) Hk) as (Hle & Hall & Hone).
    change (runScript (k :: calls) c) with (runScript calls (runCall k c)).
    rewrite linesOfScript_cons. split; [done|]. split; [by apply Forall_app|].
    intros [Hblock|Hlater]%Exists_cons; [|by apply Hone].
    destruct (decide (Exists isTestBlock calls)) as [|Hnone]; [by apply Hone|].
    destruct k; [|done]. simpl in Hopen.
    rewrite runScript_no_block; [done|]. by apply not_Exists_Forall; [apply _|].
Qed.

Lemma runScript_grouping_witness :
  openGroups (runScript [TestBlock "a"; Test "b" Null Undefined; TestBlock "c"]
                (Console 0 [])) = 1.
Proof.
  apply (runScript_grouping
           [TestBlock "a"; Test "b" Null Undefined; TestBlock "c"] (Console 0 []));
    [simpl; lia|].
  apply Exists_cons_hd. reflexivity.
Defined.

(** X18. Run from an empty console, the script of the TypeScript file
    reports [[OK]] for each of its 23 checks and no [[FAIL]]: it prints 31
    lines, one for each of the 8 blocks and the 23 checks, and leaves the
    last group open. *)
Theorem script_passes :
  let c := runScript script (Console 0 []) in
  length (filter isOkLine (printed c)) = 23
  ∧ filter isFailLine (printed c) = []
  ∧ length (printed c) = 31
  ∧ length (filter isTestBlock script) = 8
  ∧ Forall (λ k, isTestBlock k = false → passes k = true) script
  ∧ openGroups c = 1.
Proof.
  assert (Forall (λ k, isTestBlock k = false → passes k = true) script) as Hpass.
  { unfold script. repeat (constructor; [vm_compute; done|]). constructor. }
  repeat split; try done; by vm_compute.
Qed.
